(** * CarbonTracker: a shallow embedding of the carbon-credit ledger contract

    The contract [CarbonTracker] (Solidity ^0.8.0) keeps three tables
    (emission reports, carbon-credit lots, digital twins), a verifier set
    and a per-company score.  Every public function is embedded as a
    function in a small state/error/writer monad over the contract storage:
    a [require] that fails, an arithmetic panic or a failed transfer aborts
    the call; a call that returns yields the new storage together with the
    events it emitted and the value transfers it performed. *)

From Stdlib Require Import NArith Lia.
From stdpp Require Import gmap strings list fin_maps.

Local Open Scope N_scope.

(** ** Machine types *)

(** [uint256] and [address] values are unsigned: they are embedded in [N].
    The upper bound [2^256] is written out wherever the code can reach it
    (checked arithmetic, the unchecked counter increment). *)
Abbreviation uint256 := N.
Abbreviation address := N.

Definition UINT256_MODULUS : N := 2 ^ 256.

(** [365 days] in Solidity is the number of seconds of a 365-day year. *)
Definition DAYS_365 : N := 365 * 86400.

(** Solidity mappings are total: a key that was never written reads as the
    zero value of the value type. *)
Definition at_key `{Countable K} {V : Type} (zero : V) (m : gmap K V) (k : K) : V :=
  default zero (m !! k).

(** ** Structs and the enum *)

Inductive CreditType :=
| RENEWABLE_ENERGY
| FOREST_CONSERVATION
| CARBON_CAPTURE
| ENERGY_EFFICIENCY.

Module EmissionReport.
Record t := mk {
  id : uint256;
  company : address;
  facilityId : string;
  emissionAmount : uint256;
  productionVolume : uint256;
  energySources : list string;
  timestamp : uint256;
  verified : bool;
  verificationScore : uint256;
  ipfsHash : string;
  verifier : address
}.
Definition zero : t := mk 0 0 "" 0 0 [] 0 false 0 "" 0.
Definition set_verified (b : bool) (r : t) : t :=
  mk (id r) (company r) (facilityId r) (emissionAmount r) (productionVolume r)
     (energySources r) (timestamp r) b (verificationScore r) (ipfsHash r) (verifier r).
Definition set_verificationScore (n : uint256) (r : t) : t :=
  mk (id r) (company r) (facilityId r) (emissionAmount r) (productionVolume r)
     (energySources r) (timestamp r) (verified r) n (ipfsHash r) (verifier r).
Definition set_verifier (a : address) (r : t) : t :=
  mk (id r) (company r) (facilityId r) (emissionAmount r) (productionVolume r)
     (energySources r) (timestamp r) (verified r) (verificationScore r) (ipfsHash r) a.
End EmissionReport.

Module CarbonCredit.
Record t := mk {
  id : uint256;
  owner : address;
  amount : uint256;
  pricePerTon : uint256;
  certificationHash : string;
  projectDetails : string;
  retired : bool;
  vintage : uint256;
  creditType : CreditType
}.
Definition zero : t := mk 0 0 0 0 "" "" false 0 RENEWABLE_ENERGY.
Definition set_owner (a : address) (c : t) : t :=
  mk (id c) a (amount c) (pricePerTon c) (certificationHash c) (projectDetails c)
     (retired c) (vintage c) (creditType c).
Definition set_amount (n : uint256) (c : t) : t :=
  mk (id c) (owner c) n (pricePerTon c) (certificationHash c) (projectDetails c)
     (retired c) (vintage c) (creditType c).
Definition set_retired (b : bool) (c : t) : t :=
  mk (id c) (owner c) (amount c) (pricePerTon c) (certificationHash c) (projectDetails c)
     b (vintage c) (creditType c).
End CarbonCredit.

Module DigitalTwin.
Record t := mk {
  twinId : string;
  owner : address;
  facilityType : string;
  baselineEmissions : uint256;
  currentEmissions : uint256;
  lastUpdated : uint256;
  active : bool;
  dataHash : string
}.
Definition zero : t := mk "" 0 "" 0 0 0 false "".
Definition set_currentEmissions (n : uint256) (d : t) : t :=
  mk (twinId d) (owner d) (facilityType d) (baselineEmissions d) n (lastUpdated d)
     (active d) (dataHash d).
Definition set_lastUpdated (n : uint256) (d : t) : t :=
  mk (twinId d) (owner d) (facilityType d) (baselineEmissions d) (currentEmissions d) n
     (active d) (dataHash d).
End DigitalTwin.

(** ** Contract storage *)

(** The two [Counters.Counter] fields, the eight mappings of the contract,
    and the storage of its two parents: [Ownable._owner] and
    [ReentrancyGuard._status]. *)
Record State := mkState {
  _owner : address;
  _status : uint256;
  _emissionReportIds : uint256;
  _carbonCreditIds : uint256;
  emissionReports : gmap N EmissionReport.t;
  carbonCredits : gmap N CarbonCredit.t;
  digitalTwins : gmap string DigitalTwin.t;
  companyReports : gmap N (list N);
  ownedCredits : gmap N (list N);
  companyTwins : gmap N (list string);
  authorizedVerifiers : gmap N bool;
  companyScores : gmap N N
}.

Definition set_owner (a : address) (s : State) : State :=
  mkState a (_status s) (_emissionReportIds s) (_carbonCreditIds s) (emissionReports s)
    (carbonCredits s) (digitalTwins s) (companyReports s) (ownedCredits s) (companyTwins s)
    (authorizedVerifiers s) (companyScores s).
Definition set_status (n : uint256) (s : State) : State :=
  mkState (_owner s) n (_emissionReportIds s) (_carbonCreditIds s) (emissionReports s)
    (carbonCredits s) (digitalTwins s) (companyReports s) (ownedCredits s) (companyTwins s)
    (authorizedVerifiers s) (companyScores s).
Definition set_emissionReportIds (n : uint256) (s : State) : State :=
  mkState (_owner s) (_status s) n (_carbonCreditIds s) (emissionReports s)
    (carbonCredits s) (digitalTwins s) (companyReports s) (ownedCredits s) (companyTwins s)
    (authorizedVerifiers s) (companyScores s).
Definition set_carbonCreditIds (n : uint256) (s : State) : State :=
  mkState (_owner s) (_status s) (_emissionReportIds s) n (emissionReports s)
    (carbonCredits s) (digitalTwins s) (companyReports s) (ownedCredits s) (companyTwins s)
    (authorizedVerifiers s) (companyScores s).
Definition set_emissionReports (m : gmap N EmissionReport.t) (s : State) : State :=
  mkState (_owner s) (_status s) (_emissionReportIds s) (_carbonCreditIds s) m
    (carbonCredits s) (digitalTwins s) (companyReports s) (ownedCredits s) (companyTwins s)
    (authorizedVerifiers s) (companyScores s).
Definition set_carbonCredits (m : gmap N CarbonCredit.t) (s : State) : State :=
  mkState (_owner s) (_status s) (_emissionReportIds s) (_carbonCreditIds s) (emissionReports s)
    m (digitalTwins s) (companyReports s) (ownedCredits s) (companyTwins s)
    (authorizedVerifiers s) (companyScores s).
Definition set_digitalTwins (m : gmap string DigitalTwin.t) (s : State) : State :=
  mkState (_owner s) (_status s) (_emissionReportIds s) (_carbonCreditIds s) (emissionReports s)
    (carbonCredits s) m (companyReports s) (ownedCredits s) (companyTwins s)
    (authorizedVerifiers s) (companyScores s).
Definition set_companyReports (m : gmap N (list N)) (s : State) : State :=
  mkState (_owner s) (_status s) (_emissionReportIds s) (_carbonCreditIds s) (emissionReports s)
    (carbonCredits s) (digitalTwins s) m (ownedCredits s) (companyTwins s)
    (authorizedVerifiers s) (companyScores s).
Definition set_ownedCredits (m : gmap N (list N)) (s : State) : State :=
  mkState (_owner s) (_status s) (_emissionReportIds s) (_carbonCreditIds s) (emissionReports s)
    (carbonCredits s) (digitalTwins s) (companyReports s) m (companyTwins s)
    (authorizedVerifiers s) (companyScores s).
Definition set_companyTwins (m : gmap N (list string)) (s : State) : State :=
  mkState (_owner s) (_status s) (_emissionReportIds s) (_carbonCreditIds s) (emissionReports s)
    (carbonCredits s) (digitalTwins s) (companyReports s) (ownedCredits s) m
    (authorizedVerifiers s) (companyScores s).
Definition set_authorizedVerifiers (m : gmap N bool) (s : State) : State :=
  mkState (_owner s) (_status s) (_emissionReportIds s) (_carbonCreditIds s) (emissionReports s)
    (carbonCredits s) (digitalTwins s) (companyReports s) (ownedCredits s) (companyTwins s)
    m (companyScores s).
Definition set_companyScores (m : gmap N N) (s : State) : State :=
  mkState (_owner s) (_status s) (_emissionReportIds s) (_carbonCreditIds s) (emissionReports s)
    (carbonCredits s) (digitalTwins s) (companyReports s) (ownedCredits s) (companyTwins s)
    (authorizedVerifiers s) m.

(** Reads of the public mappings, with Solidity's zero default. *)
Definition report (s : State) (reportId : uint256) : EmissionReport.t :=
  at_key EmissionReport.zero (emissionReports s) reportId.
Definition credit (s : State) (creditId : uint256) : CarbonCredit.t :=
  at_key CarbonCredit.zero (carbonCredits s) creditId.
Definition twin (s : State) (twinId : string) : DigitalTwin.t :=
  at_key DigitalTwin.zero (digitalTwins s) twinId.
Definition isVerifier (s : State) (a : address) : bool :=
  at_key false (authorizedVerifiers s) a.
Definition score (s : State) (a : address) : uint256 :=
  at_key 0 (companyScores s) a.
Definition reportsOf (s : State) (a : address) : list N := at_key [] (companyReports s) a.
Definition creditsOf (s : State) (a : address) : list N := at_key [] (ownedCredits s) a.
Definition twinsOf (s : State) (a : address) : list string := at_key [] (companyTwins s) a.

(** ** Events, transfers and the call environment *)

Inductive Event :=
| EmissionReported (reportId : uint256) (company : address) (facilityId : string)
    (emissionAmount timestamp : uint256)
| EmissionVerified (reportId : uint256) (verifier : address) (verificationScore : uint256)
    (passed : bool)
| CarbonCreditMinted (creditId : uint256) (owner : address) (amount : uint256)
    (creditType : CreditType)
| CarbonCreditTraded (creditId : uint256) (from to : address) (amount price : uint256)
| CarbonCreditRetired (creditId : uint256) (owner : address) (amount : uint256)
| DigitalTwinCreated (twinId : string) (owner : address) (facilityType : string)
| DigitalTwinUpdated (twinId : string) (newEmissions timestamp : uint256)
| OwnershipTransferred (previousOwner newOwner : address).

(** What a call does to the outside world, in order. *)
Inductive Effect :=
| Emitted (e : Event)
| Sent (to : address) (value : uint256).

(** [msg.sender], [msg.value], [block.timestamp], and whether an address
    accepts a plain value transfer ([transfer] reverts when the recipient is
    a contract that refuses it). *)
Record Env := mkEnv {
  msg_sender : address;
  msg_value : uint256;
  block_timestamp : uint256;
  can_receive : address -> bool
}.

(** ** The execution monad *)

(** Why a call reverts: a failed [require] with its reason string, an
    arithmetic panic, a transfer the recipient refuses, or value sent to a
    function that is not [payable]. *)
Inductive Revert :=
| Require (reason : string)
| Panic (code : N)
| TransferFailed
| NotPayable.

Inductive Result (A : Type) :=
| Ok (a : A)
| Err (e : Revert).
Arguments Ok {A} a.
Arguments Err {A} e.

Definition M (A : Type) : Type := State -> Result (A * State * list Effect).

Definition ret {A} (a : A) : M A := fun s => Ok (a, s, []).

Definition bind {A B} (m : M A) (f : A -> M B) : M B := fun s =>
  match m s with
  | Err e => Err e
  | Ok (a, s1, l1) =>
      match f a s1 with
      | Err e => Err e
      | Ok (b, s2, l2) => Ok (b, s2, l1 ++ l2)
      end
  end.

#[global] Instance M_ret : MRet M := @ret.
#[global] Instance M_bind : MBind M := fun A B f m => bind m f.

Definition revert {A} (e : Revert) : M A := fun _ => Err e.
Definition require (b : bool) (reason : string) : M unit :=
  if b then ret tt else revert (Require reason).
Definition gets {A} (f : State -> A) : M A := fun s => Ok (f s, s, []).
Definition modify (f : State -> State) : M unit := fun s => Ok (tt, f s, []).
Definition emit (e : Event) : M unit := fun s => Ok (tt, s, [Emitted e]).

(** [payable(to).transfer(value)].  The contract holds [msg.value] for the
    duration of a payable call and never sends more than that, so the only
    way the transfer fails is the recipient refusing it.  The 2300-gas
    stipend does not let the recipient write storage, hence no callback. *)
Definition transfer (env : Env) (to : address) (value : uint256) : M unit := fun s =>
  if can_receive env to then Ok (tt, s, [Sent to value]) else Err TransferFailed.

(** Checked arithmetic of Solidity 0.8: overflow and underflow panic with
    code 0x11. *)
Definition checked_add (a b : uint256) : M uint256 :=
  if a + b <? UINT256_MODULUS then ret (a + b) else revert (Panic 17).
Definition checked_sub (a b : uint256) : M uint256 :=
  if b <=? a then ret (a - b) else revert (Panic 17).
Definition checked_mul (a b : uint256) : M uint256 :=
  if a * b <? UINT256_MODULUS then ret (a * b) else revert (Panic 17).

(** ** Inherited library code

    [Counters], [ReentrancyGuard] and [Ownable] are OpenZeppelin 4.x
    contracts imported by the source file.  [Counters.increment] adds one
    inside an [unchecked] block, so it wraps around at [2^256]. *)

Module Counters.
Definition current (c : uint256) : uint256 := c.
Definition increment (c : uint256) : uint256 := (c + 1) mod UINT256_MODULUS.
End Counters.

Definition _NOT_ENTERED : uint256 := 1.
Definition _ENTERED : uint256 := 2.

Definition nonReentrant {A} (body : M A) : M A :=
  st ← gets _status;
  require (negb (st =? _ENTERED)) "ReentrancyGuard: reentrant call";;
  modify (set_status _ENTERED);;
  r ← body;
  modify (set_status _NOT_ENTERED);;
  mret r.

Definition onlyOwner (env : Env) : M unit :=
  o ← gets _owner;
  require (o =? msg_sender env) "Ownable: caller is not the owner".

Definition _transferOwnership (newOwner : address) : M unit :=
  oldOwner ← gets _owner;
  modify (set_owner newOwner);;
  emit (OwnershipTransferred oldOwner newOwner).

Definition renounceOwnership (env : Env) : M unit :=
  onlyOwner env;;
  _transferOwnership 0.

Definition transferOwnership (env : Env) (newOwner : address) : M unit :=
  onlyOwner env;;
  require (negb (newOwner =? 0)) "Ownable: new owner is the zero address";;
  _transferOwnership newOwner.

(** ** Modifiers *)

Definition onlyVerifier (env : Env) : M unit :=
  ok ← gets (fun s => isVerifier s (msg_sender env));
  require ok "Not an authorized verifier".

Definition validReport (reportId : uint256) : M unit :=
  cur ← gets (fun s => Counters.current (_emissionReportIds s));
  require (reportId <=? cur) "Invalid report ID".

Definition validCredit (creditId : uint256) : M unit :=
  cur ← gets (fun s => Counters.current (_carbonCreditIds s));
  require (creditId <=? cur) "Invalid credit ID";;
  c ← gets (fun s => credit s creditId);
  require (negb (CarbonCredit.retired c)) "Credit already retired".

(** ** Constructor *)

(** Storage right after deployment by [deployer]: the parents' constructors
    set the owner and the guard status, the contract's own constructor
    authorizes the deployer as verifier. *)
Definition constructor (deployer : address) : State :=
  mkState deployer _NOT_ENTERED 0 0 ∅ ∅ ∅ ∅ ∅ ∅ (<[deployer := true]> ∅) ∅.

(** ** Emission reports *)

Definition reportEmissions (env : Env) (facilityId : string)
    (emissionAmount productionVolume : uint256) (energySources : list string)
    (ipfsHash : string) : M uint256 :=
  modify (fun s => set_emissionReportIds (Counters.increment (_emissionReportIds s)) s);;
  newReportId ← gets (fun s => Counters.current (_emissionReportIds s));
  modify (fun s => set_emissionReports
    (<[newReportId := EmissionReport.mk newReportId (msg_sender env) facilityId
         emissionAmount productionVolume energySources (block_timestamp env)
         false 0 ipfsHash 0]> (emissionReports s)) s);;
  modify (fun s => set_companyReports
    (<[msg_sender env := reportsOf s (msg_sender env) ++ [newReportId]]> (companyReports s)) s);;
  emit (EmissionReported newReportId (msg_sender env) facilityId emissionAmount
          (block_timestamp env));;
  mret newReportId.

Definition update_report (reportId : uint256) (f : EmissionReport.t -> EmissionReport.t)
    : M unit :=
  modify (fun s => set_emissionReports (<[reportId := f (report s reportId)]> (emissionReports s)) s).

Definition verifyEmissionReport (env : Env) (reportId verificationScore : uint256)
    (passed : bool) : M unit :=
  onlyVerifier env;;
  validReport reportId;;
  require (verificationScore <=? 100) "Score must be 0-100";;
  r ← gets (fun s => report s reportId);
  require (negb (EmissionReport.verified r)) "Report already verified";;
  update_report reportId (EmissionReport.set_verified true);;
  update_report reportId (EmissionReport.set_verificationScore verificationScore);;
  update_report reportId (EmissionReport.set_verifier (msg_sender env));;
  company ← gets (fun s => EmissionReport.company (report s reportId));
  old ← gets (fun s => score s company);
  (if passed then
     sum ← checked_add old verificationScore;
     modify (fun s => set_companyScores (<[company := sum / 2]> (companyScores s)) s)
   else
     modify (fun s => set_companyScores (<[company := old / 2]> (companyScores s)) s));;
  emit (EmissionVerified reportId (msg_sender env) verificationScore passed).

(** ** Digital twins *)

Definition createDigitalTwin (env : Env) (twinId facilityType : string)
    (baselineEmissions : uint256) (dataHash : string) : M unit :=
  t ← gets (fun s => twin s twinId);
  require (N.of_nat (String.length (DigitalTwin.twinId t)) =? 0) "Twin ID already exists";;
  modify (fun s => set_digitalTwins
    (<[twinId := DigitalTwin.mk twinId (msg_sender env) facilityType baselineEmissions
         baselineEmissions (block_timestamp env) true dataHash]> (digitalTwins s)) s);;
  modify (fun s => set_companyTwins
    (<[msg_sender env := twinsOf s (msg_sender env) ++ [twinId]]> (companyTwins s)) s);;
  emit (DigitalTwinCreated twinId (msg_sender env) facilityType).

Definition update_twin (twinId : string) (f : DigitalTwin.t -> DigitalTwin.t) : M unit :=
  modify (fun s => set_digitalTwins (<[twinId := f (twin s twinId)]> (digitalTwins s)) s).

Definition updateDigitalTwin (env : Env) (twinId : string) (newEmissions : uint256)
    : M unit :=
  t ← gets (fun s => twin s twinId);
  require (DigitalTwin.owner t =? msg_sender env) "Not twin owner";;
  require (DigitalTwin.active t) "Twin not active";;
  update_twin twinId (DigitalTwin.set_currentEmissions newEmissions);;
  update_twin twinId (DigitalTwin.set_lastUpdated (block_timestamp env));;
  emit (DigitalTwinUpdated twinId newEmissions (block_timestamp env)).

(** ** Carbon credits *)

Definition push_ownedCredits (owner : address) (creditId : uint256) : M unit :=
  modify (fun s => set_ownedCredits
    (<[owner := creditsOf s owner ++ [creditId]]> (ownedCredits s)) s).

(** The vintage test [vintage >= 2020 && vintage <= block.timestamp / 365 days + 1970];
    [&&] does not evaluate its right operand when the left one is false. *)
Definition vintage_ok (env : Env) (vintage : uint256) : M bool :=
  if 2020 <=? vintage then
    year ← checked_add (block_timestamp env / DAYS_365) 1970;
    mret (vintage <=? year)
  else mret false.

Definition mintCarbonCredit (env : Env) (amount pricePerTon : uint256)
    (certificationHash projectDetails : string) (vintage : uint256)
    (creditType : CreditType) : M uint256 :=
  require (0 <? amount) "Amount must be greater than 0";;
  ok ← vintage_ok env vintage;
  require ok "Invalid vintage year";;
  modify (fun s => set_carbonCreditIds (Counters.increment (_carbonCreditIds s)) s);;
  newCreditId ← gets (fun s => Counters.current (_carbonCreditIds s));
  modify (fun s => set_carbonCredits
    (<[newCreditId := CarbonCredit.mk newCreditId (msg_sender env) amount pricePerTon
         certificationHash projectDetails false vintage creditType]> (carbonCredits s)) s);;
  push_ownedCredits (msg_sender env) newCreditId;;
  emit (CarbonCreditMinted newCreditId (msg_sender env) amount creditType);;
  mret newCreditId.

Definition update_credit (creditId : uint256) (f : CarbonCredit.t -> CarbonCredit.t) : M unit :=
  modify (fun s => set_carbonCredits (<[creditId := f (credit s creditId)]> (carbonCredits s)) s).

(** The loop of [_removeFromOwnedCredits] stops at the first index holding
    [creditId]. *)
Fixpoint first_index (creditId : uint256) (credits : list N) : option nat :=
  match credits with
  | [] => None
  | c :: rest => if c =? creditId then Some 0%nat else S <$> first_index creditId rest
  end.

(** [credits[i] = credits[credits.length - 1]; credits.pop()]. *)
Definition swap_pop (i : nat) (credits : list N) : list N :=
  removelast (<[i := default 0 (last credits)]> credits).

Definition _removeFromOwnedCredits (owner : address) (creditId : uint256) : M unit :=
  modify (fun s =>
    let credits := creditsOf s owner in
    match first_index creditId credits with
    | Some i => set_ownedCredits (<[owner := swap_pop i credits]> (ownedCredits s)) s
    | None => s
    end).

Definition tradeCarbonCredit (env : Env) (creditId amount : uint256) : M unit :=
  nonReentrant (
    validCredit creditId;;
    c ← gets (fun s => credit s creditId);
    require (amount <=? CarbonCredit.amount c) "Insufficient credit amount";;
    due ← checked_mul (CarbonCredit.pricePerTon c) amount;
    require (due <=? msg_value env) "Insufficient payment";;
    require (negb (CarbonCredit.owner c =? msg_sender env)) "Cannot trade own credit";;
    let previousOwner := CarbonCredit.owner c in
    totalPrice ← checked_mul (CarbonCredit.pricePerTon c) amount;
    transfer env previousOwner totalPrice;;
    (if amount =? CarbonCredit.amount c then
       update_credit creditId (CarbonCredit.set_owner (msg_sender env));;
       _removeFromOwnedCredits previousOwner creditId;;
       push_ownedCredits (msg_sender env) creditId
     else
       rest ← checked_sub (CarbonCredit.amount c) amount;
       update_credit creditId (CarbonCredit.set_amount rest);;
       modify (fun s => set_carbonCreditIds (Counters.increment (_carbonCreditIds s)) s);;
       newCreditId ← gets (fun s => Counters.current (_carbonCreditIds s));
       src ← gets (fun s => credit s creditId);
       modify (fun s => set_carbonCredits
         (<[newCreditId := CarbonCredit.mk newCreditId (msg_sender env) amount
              (CarbonCredit.pricePerTon src) (CarbonCredit.certificationHash src)
              (CarbonCredit.projectDetails src) false (CarbonCredit.vintage src)
              (CarbonCredit.creditType src)]> (carbonCredits s)) s);;
       push_ownedCredits (msg_sender env) newCreditId);;
    (if totalPrice <? msg_value env then
       refund ← checked_sub (msg_value env) totalPrice;
       transfer env (msg_sender env) refund
     else mret tt);;
    emit (CarbonCreditTraded creditId previousOwner (msg_sender env) amount totalPrice)).

Definition retireCarbonCredit (env : Env) (creditId : uint256) : M unit :=
  validCredit creditId;;
  c ← gets (fun s => credit s creditId);
  require (CarbonCredit.owner c =? msg_sender env) "Not credit owner";;
  update_credit creditId (CarbonCredit.set_retired true);;
  amt ← gets (fun s => CarbonCredit.amount (credit s creditId));
  emit (CarbonCreditRetired creditId (msg_sender env) amt).

(** ** Verifier management and the remaining entry points *)

Definition addVerifier (env : Env) (verifier : address) : M unit :=
  onlyOwner env;;
  modify (fun s => set_authorizedVerifiers (<[verifier := true]> (authorizedVerifiers s)) s).

Definition removeVerifier (env : Env) (verifier : address) : M unit :=
  onlyOwner env;;
  modify (fun s => set_authorizedVerifiers (<[verifier := false]> (authorizedVerifiers s)) s).

Definition pause (env : Env) : M unit := onlyOwner env.

Definition getCompanyReports (s : State) (company : address) : list N := reportsOf s company.
Definition getOwnedCredits (s : State) (owner : address) : list N := creditsOf s owner.
Definition getCompanyTwins (s : State) (company : address) : list string := twinsOf s company.
Definition getTotalReports (s : State) : uint256 := Counters.current (_emissionReportIds s).
Definition getTotalCredits (s : State) : uint256 := Counters.current (_carbonCreditIds s).
Definition getVersion : string := "CarbonTracker v1.0.0".

(** ** Transactions *)

(** The state-changing entry points of the deployed contract. *)
Inductive Call :=
| ReportEmissions (facilityId : string) (emissionAmount productionVolume : uint256)
    (energySources : list string) (ipfsHash : string)
| VerifyEmissionReport (reportId verificationScore : uint256) (passed : bool)
| CreateDigitalTwin (twinId facilityType : string) (baselineEmissions : uint256)
    (dataHash : string)
| UpdateDigitalTwin (twinId : string) (newEmissions : uint256)
| MintCarbonCredit (amount pricePerTon : uint256) (certificationHash projectDetails : string)
    (vintage : uint256) (creditType : CreditType)
| TradeCarbonCredit (creditId amount : uint256)
| RetireCarbonCredit (creditId : uint256)
| AddVerifier (verifier : address)
| RemoveVerifier (verifier : address)
| Pause
| RenounceOwnership
| TransferOwnership (newOwner : address).

(** Only [tradeCarbonCredit] is [payable]: any other function rejects a call
    that carries value before running its body. *)
Definition nonpayable (env : Env) : M unit :=
  fun s => if msg_value env =? 0 then Ok (tt, s, []) else Err NotPayable.

Definition outcome {A} (m : M A) : State -> Result (State * list Effect) := fun s =>
  match m s with
  | Ok (_, s', l) => Ok (s', l)
  | Err e => Err e
  end.

Definition exec (env : Env) (c : Call) : State -> Result (State * list Effect) :=
  match c with
  | ReportEmissions f e p es h => outcome (nonpayable env;; reportEmissions env f e p es h)
  | VerifyEmissionReport r v p => outcome (nonpayable env;; verifyEmissionReport env r v p)
  | CreateDigitalTwin t f b d => outcome (nonpayable env;; createDigitalTwin env t f b d)
  | UpdateDigitalTwin t n => outcome (nonpayable env;; updateDigitalTwin env t n)
  | MintCarbonCredit a p c d v t => outcome (nonpayable env;; mintCarbonCredit env a p c d v t)
  | TradeCarbonCredit i a => outcome (tradeCarbonCredit env i a)
  | RetireCarbonCredit i => outcome (nonpayable env;; retireCarbonCredit env i)
  | AddVerifier v => outcome (nonpayable env;; addVerifier env v)
  | RemoveVerifier v => outcome (nonpayable env;; removeVerifier env v)
  | Pause => outcome (nonpayable env;; pause env)
  | RenounceOwnership => outcome (nonpayable env;; renounceOwnership env)
  | TransferOwnership n => outcome (nonpayable env;; transferOwnership env n)
  end.

(** A transaction either commits the storage its call returns or, when the
    call reverts, leaves the storage as it was. *)
Definition transact (env : Env) (c : Call) (s : State) : State :=
  match exec env c s with
  | Ok (s', _) => s'
  | Err _ => s
  end.

Fixpoint run (s : State) (txs : list (Env * Call)) : State :=
  match txs with
  | [] => s
  | (env, c) :: rest => run (transact env c s) rest
  end.

(** [reachable n s]: the storage [s] is that of a deployed contract after
    [n] transactions. *)
Inductive reachable : N -> State -> Prop :=
| reach_deploy (deployer : address) : reachable 0 (constructor deployer)
| reach_tx (n : N) (s : State) (env : Env) (c : Call) :
    reachable n s -> reachable (n + 1) (transact env c s).

(** ** Error kinds

    The revert reasons of the code, sorted into the error kinds that a
    caller distinguishes. *)
Inductive ErrorKind :=
| ValidationError
| NotFoundError
| AuthorizationError
| AlreadyVerifiedError
| AlreadyRetiredError
| DuplicateKeyError
| InsufficientAmountError
| InsufficientPaymentError
| SelfTradeError
| InactiveError
| ReentrancyRejection.

Definition reason_kind (reason : string) : option ErrorKind :=
  if String.eqb reason "Not an authorized verifier" then Some AuthorizationError
  else if String.eqb reason "Invalid report ID" then Some NotFoundError
  else if String.eqb reason "Invalid credit ID" then Some NotFoundError
  else if String.eqb reason "Credit already retired" then Some AlreadyRetiredError
  else if String.eqb reason "Score must be 0-100" then Some ValidationError
  else if String.eqb reason "Report already verified" then Some AlreadyVerifiedError
  else if String.eqb reason "Twin ID already exists" then Some DuplicateKeyError
  else if String.eqb reason "Not twin owner" then Some AuthorizationError
  else if String.eqb reason "Twin not active" then Some InactiveError
  else if String.eqb reason "Amount must be greater than 0" then Some ValidationError
  else if String.eqb reason "Invalid vintage year" then Some ValidationError
  else if String.eqb reason "Insufficient credit amount" then Some InsufficientAmountError
  else if String.eqb reason "Insufficient payment" then Some InsufficientPaymentError
  else if String.eqb reason "Cannot trade own credit" then Some SelfTradeError
  else if String.eqb reason "Not credit owner" then Some AuthorizationError
  else if String.eqb reason "Ownable: caller is not the owner" then Some AuthorizationError
  else if String.eqb reason "ReentrancyGuard: reentrant call" then Some ReentrancyRejection
  else None.

Definition error_kind (e : Revert) : option ErrorKind :=
  match e with
  | Require reason => reason_kind reason
  | Panic _ => None
  | TransferFailed => None
  | NotPayable => None
  end.

(** [fails_with r k]: the call reverted, with an error of kind [k]. *)
Definition fails_with {A} (r : Result A) (k : ErrorKind) : Prop :=
  match r with
  | Ok _ => False
  | Err e => error_kind e = Some k
  end.

(** ** Notions used to state the properties *)

(** An environment whose addresses are all externally owned accounts: every
    transfer is accepted. *)
Definition eoa_env (sender : address) (value timestamp : uint256) : Env :=
  mkEnv sender value timestamp (fun _ => true).

(** Total value sent to [a] by a call. *)
Fixpoint received (a : address) (l : list Effect) : N :=
  match l with
  | [] => 0
  | Sent to value :: rest => (if to =? a then value else 0) + received a rest
  | Emitted _ :: rest => received a rest
  end.

(** A lot exists when its id was handed out by the credit counter. *)
Definition lot_exists (s : State) (creditId : uint256) : Prop :=
  1 <= creditId <= _carbonCreditIds s.

(** The split a transaction performs, if it performs one: a successful
    partial trade of lot [parent] creates the lot [child]. *)
Definition split_of (env : Env) (c : Call) (s : State) : option (N * N) :=
  match c with
  | TradeCarbonCredit creditId amount =>
      match exec env c s with
      | Ok (s', _) =>
          if amount =? CarbonCredit.amount (credit s creditId) then None
          else Some (creditId, _carbonCreditIds s')
      | Err _ => None
      end
  | _ => None
  end.

(** The family of a lot along a run: the lots it starts with and every lot
    split off, transitively, from one of them. *)
Fixpoint lineage (s : State) (txs : list (Env * Call)) (family : list N) : list N :=
  match txs with
  | [] => family
  | (env, c) :: rest =>
      lineage (transact env c s) rest
        (match split_of env c s with
         | Some (parent, child) =>
             if bool_decide (parent ∈ family) then family ++ [child] else family
         | None => family
         end)
  end.

Definition total_amount (s : State) (family : list N) : N :=
  foldr (fun creditId acc => CarbonCredit.amount (credit s creditId) + acc) 0 family.

(** The year the code takes for the current one. *)
Definition code_year (timestamp : uint256) : N := timestamp / DAYS_365 + 1970.

(** Leap years of the Gregorian calendar; they have 366 days. *)
Definition is_leap (y : N) : bool :=
  (y mod 4 =? 0) && (negb (y mod 100 =? 0) || (y mod 400 =? 0)).

Definition days_in_year (y : N) : N := if is_leap y then 366 else 365.

(** [year_from fuel y d]: the year of the day that comes [d] days after the
    first of January of year [y]. *)
Fixpoint year_from (fuel : nat) (y d : N) : N :=
  match fuel with
  | O => y
  | S fuel' =>
      if d <? days_in_year y then y else year_from fuel' (y + 1) (d - days_in_year y)
  end.

(** The number of days of the [k] years that start with year [y]. *)
Fixpoint days_upto (k : nat) (y : N) : N :=
  match k with
  | O => 0
  | S k' => days_in_year y + days_upto k' (y + 1)
  end.

(** The current calendar year of a chain-clock time, to compare [code_year]
    with.  The chain clock counts seconds since 1970-01-01 00:00 UTC, and a
    day has 86400 of them.  Every year has at least 365 days, so [d / 365 + 1]
    steps are enough to find the year of day [d]. *)
Definition calendar_year (timestamp : uint256) : N :=
  let d := timestamp / 86400 in
  year_from (S (N.to_nat (d / 365))) 1970 d.

(** What holds of the storage after [n] transactions, as long as the two
    counters have had no chance to wrap around. *)
Definition invariant (n : N) (s : State) : Prop :=
  _status s = _NOT_ENTERED /\
  _carbonCreditIds s <= n /\
  _emissionReportIds s <= n /\
  (forall creditId, CarbonCredit.retired (credit s creditId) = true ->
     creditId <= _carbonCreditIds s) /\
  (forall k t, digitalTwins s !! k = Some t -> DigitalTwin.twinId t = k) /\
  (forall a, score s a <= 100).

(** The outcome of a verification is recorded once and for all. *)
Definition verified_as (reportId sc : uint256) (who : address) (s : State) : Prop :=
  reportId <= _emissionReportIds s /\
  EmissionReport.verified (report s reportId) = true /\
  EmissionReport.verificationScore (report s reportId) = sc /\
  EmissionReport.verifier (report s reportId) = who.

(** ** Notions used to state further properties *)

(** The credit table and the owners' index [ownedCredits] agree: every
    stored lot carries its key as id, the keys from 1 to the counter are the
    stored ones (the key 0 may be stored too), and an owner's index lists,
    once each, lots that this owner holds. *)
Definition credits_indexed (s : State) : Prop :=
  (forall i c, carbonCredits s !! i = Some c ->
     CarbonCredit.id c = i /\ i <= _carbonCreditIds s) /\
  (forall i, 1 <= i <= _carbonCreditIds s -> is_Some (carbonCredits s !! i)) /\
  (forall a, NoDup (creditsOf s a)) /\
  (forall a i, i ∈ creditsOf s a ->
     CarbonCredit.owner (credit s i) = a /\ i <= _carbonCreditIds s) /\
  (forall i, 1 <= i <= _carbonCreditIds s ->
     i ∈ creditsOf s (CarbonCredit.owner (credit s i))).

(** The report table and the companies' index [companyReports] agree, and a
    report that is not verified has neither score nor verifier. *)
Definition reports_indexed (s : State) : Prop :=
  (forall i r, emissionReports s !! i = Some r ->
     EmissionReport.id r = i /\ i <= _emissionReportIds s) /\
  (forall i, 1 <= i <= _emissionReportIds s -> is_Some (emissionReports s !! i)) /\
  (forall a, NoDup (reportsOf s a)) /\
  (forall a i, i ∈ reportsOf s a <->
     1 <= i <= _emissionReportIds s /\ EmissionReport.company (report s i) = a) /\
  (forall i, EmissionReport.verificationScore (report s i) <= 100 /\
     (EmissionReport.verified (report s i) = false ->
        EmissionReport.verificationScore (report s i) = 0 /\
        EmissionReport.verifier (report s i) = 0)).

(** Every stored twin is active, and under a key that is not empty the
    index [companyTwins] of an address lists the twins this address owns. *)
Definition twins_indexed (s : State) : Prop :=
  (forall k t, digitalTwins s !! k = Some t -> DigitalTwin.active t = true) /\
  (forall a k, k <> "" ->
     (k ∈ twinsOf s a <-> exists t, digitalTwins s !! k = Some t /\ DigitalTwin.owner t = a)).

(** What of a twin no call can change. *)
Definition twin_identity (t : DigitalTwin.t) : string * address * string * uint256 * string :=
  (DigitalTwin.twinId t, DigitalTwin.owner t, DigitalTwin.facilityType t,
   DigitalTwin.baselineEmissions t, DigitalTwin.dataHash t).

(** Total value a call sends out. *)
Fixpoint sent_total (l : list Effect) : N :=
  match l with
  | [] => 0
  | Sent _ value :: rest => value + sent_total rest
  | Emitted _ :: rest => sent_total rest
  end.

(** The terms of a lot that a split copies to the new lot. *)
Definition lot_terms (c : CarbonCredit.t) : uint256 * string * string * uint256 * CreditType :=
  (CarbonCredit.pricePerTon c, CarbonCredit.certificationHash c,
   CarbonCredit.projectDetails c, CarbonCredit.vintage c, CarbonCredit.creditType c).

(** A transaction that is not a trade of amount zero. *)
Definition not_zero_trade (tx : Env * Call) : Prop :=
  forall creditId, snd tx <> TradeCarbonCredit creditId 0.

(** ** Scenarios *)

Definition deployer : address := 1.
Definition alice : address := 10.
Definition bob : address := 11.
Definition carol : address := 12.

(** 2025-12-20 00:00:00 UTC. *)
Definition dec_20_2025 : uint256 := 1766188800.

Definition genesis : State := constructor deployer.

(** Alice mints a lot of 100 tons at 10 wei per ton. *)
Definition mint_100 : Call := MintCarbonCredit 100 10 "cert" "project" 2024 CARBON_CAPTURE.

Definition minted : State := transact (eoa_env alice 0 dec_20_2025) mint_100 genesis.

(** Bob buys 40 tons of lot 1 and attaches 405 wei. *)
Definition partly_traded : State :=
  transact (eoa_env bob 405 dec_20_2025) (TradeCarbonCredit 1 40) minted.

(** What then happens to the lot: Alice buys 10 tons back from Bob's new lot,
    Bob buys that third lot whole and retires it; Carol mints a lot of her
    own, of which Bob buys 2 tons. *)
Definition market : list (Env * Call) :=
  [ (eoa_env bob 405 dec_20_2025, TradeCarbonCredit 1 40);
    (eoa_env alice 100 dec_20_2025, TradeCarbonCredit 2 10);
    (eoa_env bob 100 dec_20_2025, TradeCarbonCredit 3 10);
    (eoa_env bob 0 dec_20_2025, RetireCarbonCredit 3);
    (eoa_env carol 0 dec_20_2025, MintCarbonCredit 7 3 "c" "p" 2023 RENEWABLE_ENERGY);
    (eoa_env bob 6 dec_20_2025, TradeCarbonCredit 4 2) ].

(** Bob "buys" nothing of lot 1. *)
Definition zero_traded : State :=
  transact (eoa_env bob 0 dec_20_2025) (TradeCarbonCredit 1 0) minted.

(** Alice retires lot 1. *)
Definition retired_lot : State :=
  transact (eoa_env alice 0 dec_20_2025) (RetireCarbonCredit 1) minted.

(** Alice reports emissions of 1000 kg; the deployer verifies the report
    with score 90. *)
Definition report_1000 : Call := ReportEmissions "plant" 1000 50 ["grid"] "Qm".

Definition reported : State := transact (eoa_env alice 0 dec_20_2025) report_1000 genesis.

Definition verified_once : State :=
  transact (eoa_env deployer 0 dec_20_2025) (VerifyEmissionReport 1 90 true) reported.

(** Afterwards Bob files a report and the deployer authorizes Carol. *)
Definition later : list (Env * Call) :=
  [ (eoa_env bob 0 dec_20_2025, report_1000);
    (eoa_env deployer 0 dec_20_2025, AddVerifier carol) ].

(** Alice creates a twin under the empty key, and one under a proper key. *)
Definition empty_twin : State :=
  transact (eoa_env alice 0 dec_20_2025) (CreateDigitalTwin "" "factory" 100 "h") genesis.

Definition plant_twin : State :=
  transact (eoa_env alice 0 dec_20_2025) (CreateDigitalTwin "plant" "factory" 100 "h") genesis.

(** * Proofs *)

(** ** Reasoning about the monad *)

Lemma bind_Ok {A B} (m : M A) (f : A -> M B) s b s2 l :
  (m ≫= f) s = Ok (b, s2, l) ->
  exists a s1 l1 l2, m s = Ok (a, s1, l1) /\ f a s1 = Ok (b, s2, l2) /\ l = l1 ++ l2.
Proof.
  unfold mbind, M_bind, bind. destruct (m s) as [[[a s1] l1]|e]; [|discriminate].
  destruct (f a s1) as [[[b' s2'] l2]|e] eqn:Hf; [|discriminate].
  intros [= -> -> <-]. eauto 10.
Qed.

Lemma bind_Err {A B} (m : M A) (f : A -> M B) s e :
  m s = Err e -> (m ≫= f) s = Err e.
Proof. unfold mbind, M_bind, bind. by intros ->. Qed.

Lemma require_Ok b reason s u s' l :
  require b reason s = Ok (u, s', l) -> b = true /\ s' = s /\ l = [].
Proof. unfold require, ret, revert. destruct b; [intros [= _ -> <-]; auto | discriminate]. Qed.

Lemma gets_Ok {A} (f : State -> A) s a s' l :
  gets f s = Ok (a, s', l) -> a = f s /\ s' = s /\ l = [].
Proof. unfold gets. intros [= <- <- <-]; auto. Qed.

Lemma modify_Ok f s u s' l : modify f s = Ok (u, s', l) -> s' = f s /\ l = [].
Proof. unfold modify. intros [= _ <- <-]; auto. Qed.

Lemma emit_Ok e s u s' l : emit e s = Ok (u, s', l) -> s' = s /\ l = [Emitted e].
Proof. unfold emit. intros [= _ <- <-]; auto. Qed.

Lemma mret_Ok {A} (a : A) s a' s' l :
  (mret a : M A) s = Ok (a', s', l) -> a' = a /\ s' = s /\ l = [].
Proof. unfold mret, M_ret, ret. intros [= <- <- <-]; auto. Qed.

Lemma transfer_Ok env to v s u s' l :
  transfer env to v s = Ok (u, s', l) ->
  can_receive env to = true /\ s' = s /\ l = [Sent to v].
Proof.
  unfold transfer. destruct (can_receive env to); [intros [= _ <- <-]; auto | discriminate].
Qed.

Lemma checked_add_Ok a b s r s' l :
  checked_add a b s = Ok (r, s', l) ->
  a + b < UINT256_MODULUS /\ r = a + b /\ s' = s /\ l = [].
Proof.
  unfold checked_add, ret, revert.
  destruct (N.ltb_spec (a + b) UINT256_MODULUS); [|discriminate].
  intros [= <- <- <-]; auto.
Qed.

Lemma checked_add_fits a b s :
  a + b < UINT256_MODULUS -> checked_add a b s = Ok (a + b, s, []).
Proof. intros Hlt. unfold checked_add. apply N.ltb_lt in Hlt. by rewrite Hlt. Qed.

Lemma checked_sub_Ok a b s r s' l :
  checked_sub a b s = Ok (r, s', l) -> b <= a /\ r = a - b /\ s' = s /\ l = [].
Proof.
  unfold checked_sub, ret, revert. destruct (N.leb_spec b a); [|discriminate].
  intros [= <- <- <-]; auto.
Qed.

Lemma checked_mul_Ok a b s r s' l :
  checked_mul a b s = Ok (r, s', l) ->
  a * b < UINT256_MODULUS /\ r = a * b /\ s' = s /\ l = [].
Proof.
  unfold checked_mul, ret, revert.
  destruct (N.ltb_spec (a * b) UINT256_MODULUS); [|discriminate].
  intros [= <- <- <-]; auto.
Qed.

(** Inversion of a successful monadic computation, one primitive at a time. *)
Ltac inv_step :=
  lazymatch goal with
  | H : (_ ≫= _) _ = Ok _ |- _ =>
      apply bind_Ok in H; destruct H as (? & ? & ? & ? & ? & H & ?)
  | H : require _ _ _ = Ok _ |- _ => apply require_Ok in H; destruct H as (? & ? & ?)
  | H : gets _ _ = Ok _ |- _ => apply gets_Ok in H; destruct H as (? & ? & ?)
  | H : modify _ _ = Ok _ |- _ => apply modify_Ok in H; destruct H as (? & ?)
  | H : emit _ _ = Ok _ |- _ => apply emit_Ok in H; destruct H as (? & ?)
  | H : @mret M _ _ _ _ = Ok _ |- _ => apply mret_Ok in H; destruct H as (? & ? & ?)
  | H : transfer _ _ _ _ = Ok _ |- _ => apply transfer_Ok in H; destruct H as (? & ? & ?)
  | H : checked_add _ _ _ = Ok _ |- _ =>
      apply checked_add_Ok in H; destruct H as (? & ? & ? & ?)
  | H : checked_sub _ _ _ = Ok _ |- _ =>
      apply checked_sub_Ok in H; destruct H as (? & ? & ? & ?)
  | H : checked_mul _ _ _ = Ok _ |- _ =>
      apply checked_mul_Ok in H; destruct H as (? & ? & ? & ?)
  | H : (if ?b then _ else _) _ = Ok _ |- _ => destruct b eqn:?
  end.

Ltac inv_M := repeat (inv_step; subst); try discriminate.

(** Reads of the storage after writes. *)
Ltac simpl_state :=
  unfold report, credit, twin, isVerifier, score, reportsOf, creditsOf, twinsOf,
    Counters.current in *;
  cbn [set_owner set_status set_emissionReportIds set_carbonCreditIds set_emissionReports
       set_carbonCredits set_digitalTwins set_companyReports set_ownedCredits set_companyTwins
       set_authorizedVerifiers set_companyScores
       _owner _status _emissionReportIds _carbonCreditIds emissionReports carbonCredits
       digitalTwins companyReports ownedCredits companyTwins authorizedVerifiers companyScores
       EmissionReport.id EmissionReport.company EmissionReport.facilityId
       EmissionReport.emissionAmount EmissionReport.productionVolume
       EmissionReport.energySources EmissionReport.timestamp EmissionReport.verified
       EmissionReport.verificationScore EmissionReport.ipfsHash EmissionReport.verifier
       EmissionReport.set_verified EmissionReport.set_verificationScore
       EmissionReport.set_verifier
       CarbonCredit.id CarbonCredit.owner CarbonCredit.amount CarbonCredit.pricePerTon
       CarbonCredit.certificationHash CarbonCredit.projectDetails CarbonCredit.retired
       CarbonCredit.vintage CarbonCredit.creditType
       CarbonCredit.set_owner CarbonCredit.set_amount CarbonCredit.set_retired
       DigitalTwin.twinId DigitalTwin.owner DigitalTwin.facilityType
       DigitalTwin.baselineEmissions DigitalTwin.currentEmissions DigitalTwin.lastUpdated
       DigitalTwin.active DigitalTwin.dataHash
       DigitalTwin.set_currentEmissions DigitalTwin.set_lastUpdated
       fst snd] in *.

Ltac bool_hyps :=
  repeat match goal with
  | H : (_ <=? _) = true |- _ => apply N.leb_le in H
  | H : (_ <=? _) = false |- _ => apply N.leb_gt in H
  | H : (_ <? _) = true |- _ => apply N.ltb_lt in H
  | H : (_ <? _) = false |- _ => apply N.ltb_ge in H
  | H : (_ =? _) = true |- _ => apply N.eqb_eq in H
  | H : (_ =? _) = false |- _ => apply N.eqb_neq in H
  | H : negb _ = true |- _ => apply negb_true_iff in H
  | H : negb _ = false |- _ => apply negb_false_iff in H
  | H : true = _ |- _ => symmetry in H
  | H : false = _ |- _ => symmetry in H
  end.

Section at_key.
Context `{Countable K} {V : Type}.
Implicit Types (m : gmap K V) (k : K) (v z : V).

Lemma at_key_insert_eq z m k v : at_key z (<[k:=v]> m) k = v.
Proof. unfold at_key. by rewrite lookup_insert_eq. Qed.

Lemma at_key_insert_ne z m k k' v : k ≠ k' -> at_key z (<[k:=v]> m) k' = at_key z m k'.
Proof. intros. unfold at_key. by rewrite lookup_insert_ne. Qed.

Lemma at_key_None z m k : m !! k = None -> at_key z m k = z.
Proof. intros Hk. unfold at_key. by rewrite Hk. Qed.

Lemma at_key_Some z m k v : m !! k = Some v -> at_key z m k = v.
Proof. intros Hk. unfold at_key. by rewrite Hk. Qed.
End at_key.

Lemma increment_small c : c + 1 < UINT256_MODULUS -> Counters.increment c = c + 1.
Proof. intros Hc. unfold Counters.increment. by apply N.mod_small. Qed.

(** ** What each entry point does when it returns *)

Lemma reportEmissions_run env f e p es h s :
  let newId := Counters.increment (_emissionReportIds s) in
  reportEmissions env f e p es h s =
    Ok (newId,
        set_companyReports
          (<[msg_sender env := reportsOf s (msg_sender env) ++ [newId]]> (companyReports s))
          (set_emissionReports
             (<[newId := EmissionReport.mk newId (msg_sender env) f e p es
                           (block_timestamp env) false 0 h 0]> (emissionReports s))
             (set_emissionReportIds newId s)),
        [Emitted (EmissionReported newId (msg_sender env) f e (block_timestamp env))]).
Proof. reflexivity. Qed.

Lemma verifyEmissionReport_Ok env id sc passed s u s' l :
  verifyEmissionReport env id sc passed s = Ok (u, s', l) ->
  let r := report s id in
  let old := score s (EmissionReport.company r) in
  isVerifier s (msg_sender env) = true /\
  id <= _emissionReportIds s /\
  sc <= 100 /\
  EmissionReport.verified r = false /\
  (passed = true -> old + sc < UINT256_MODULUS) /\
  s' = set_companyScores
         (<[EmissionReport.company r := if passed then (old + sc) / 2 else old / 2]>
            (companyScores s))
         (set_emissionReports
            (<[id := EmissionReport.set_verifier (msg_sender env)
                       (EmissionReport.set_verificationScore sc
                          (EmissionReport.set_verified true r))]> (emissionReports s)) s) /\
  l = [Emitted (EmissionVerified id (msg_sender env) sc passed)].
Proof.
  unfold verifyEmissionReport, onlyVerifier, validReport, update_report. intros Hv.
  inv_M; simpl_state; rewrite ?at_key_insert_eq, ?insert_insert_eq in *; simpl_state.
  all: bool_hyps; repeat split; auto; discriminate.
Qed.

Lemma createDigitalTwin_Ok env k ft b dh s u s' l :
  createDigitalTwin env k ft b dh s = Ok (u, s', l) ->
  String.length (DigitalTwin.twinId (twin s k)) = 0%nat /\
  s' = set_companyTwins
         (<[msg_sender env := twinsOf s (msg_sender env) ++ [k]]> (companyTwins s))
         (set_digitalTwins
            (<[k := DigitalTwin.mk k (msg_sender env) ft b b (block_timestamp env) true dh]>
               (digitalTwins s)) s) /\
  l = [Emitted (DigitalTwinCreated k (msg_sender env) ft)].
Proof.
  unfold createDigitalTwin. intros Hc. inv_M; simpl_state; bool_hyps.
  repeat split; auto. lia.
Qed.

Lemma updateDigitalTwin_Ok env k ne s u s' l :
  updateDigitalTwin env k ne s = Ok (u, s', l) ->
  let t := twin s k in
  DigitalTwin.owner t = msg_sender env /\
  DigitalTwin.active t = true /\
  s' = set_digitalTwins
         (<[k := DigitalTwin.set_lastUpdated (block_timestamp env)
                   (DigitalTwin.set_currentEmissions ne t)]> (digitalTwins s)) s /\
  l = [Emitted (DigitalTwinUpdated k ne (block_timestamp env))].
Proof.
  unfold updateDigitalTwin, update_twin. intros Hc.
  inv_M; simpl_state; rewrite ?at_key_insert_eq, ?insert_insert_eq in *; simpl_state.
  bool_hyps. repeat split; auto.
Qed.

Lemma mintCarbonCredit_Ok env a p ch pd v t s r s' l :
  mintCarbonCredit env a p ch pd v t s = Ok (r, s', l) ->
  0 < a /\ 2020 <= v <= code_year (block_timestamp env) /\
  r = Counters.increment (_carbonCreditIds s) /\
  s' = set_ownedCredits
         (<[msg_sender env := creditsOf s (msg_sender env) ++ [r]]> (ownedCredits s))
         (set_carbonCredits
            (<[r := CarbonCredit.mk r (msg_sender env) a p ch pd false v t]> (carbonCredits s))
            (set_carbonCreditIds r s)) /\
  l = [Emitted (CarbonCreditMinted r (msg_sender env) a t)].
Proof.
  unfold mintCarbonCredit, vintage_ok, push_ownedCredits, code_year. intros Hc.
  inv_M; simpl_state; bool_hyps; try discriminate.
  repeat split; auto.
Qed.

Lemma retireCarbonCredit_Ok env id s u s' l :
  retireCarbonCredit env id s = Ok (u, s', l) ->
  let c := credit s id in
  id <= _carbonCreditIds s /\
  CarbonCredit.retired c = false /\
  CarbonCredit.owner c = msg_sender env /\
  s' = set_carbonCredits (<[id := CarbonCredit.set_retired true c]> (carbonCredits s)) s /\
  l = [Emitted (CarbonCreditRetired id (msg_sender env) (CarbonCredit.amount c))].
Proof.
  unfold retireCarbonCredit, validCredit, update_credit. intros Hc.
  inv_M; simpl_state; rewrite ?at_key_insert_eq in *; simpl_state; bool_hyps.
  repeat split; auto.
Qed.

Lemma tradeCarbonCredit_Ok env id a s u s' l :
  tradeCarbonCredit env id a s = Ok (u, s', l) ->
  let c := credit s id in
  let total := CarbonCredit.pricePerTon c * a in
  _status s <> _ENTERED /\
  id <= _carbonCreditIds s /\
  CarbonCredit.retired c = false /\
  a <= CarbonCredit.amount c /\
  total < UINT256_MODULUS /\
  total <= msg_value env /\
  CarbonCredit.owner c <> msg_sender env /\
  l = Sent (CarbonCredit.owner c) total ::
      (if total <? msg_value env then [Sent (msg_sender env) (msg_value env - total)] else [])
      ++ [Emitted (CarbonCreditTraded id (CarbonCredit.owner c) (msg_sender env) a total)] /\
  ((a = CarbonCredit.amount c /\
    exists owned,
      s' = set_status _NOT_ENTERED
             (set_ownedCredits owned
                (set_carbonCredits
                   (<[id := CarbonCredit.set_owner (msg_sender env) c]> (carbonCredits s)) s)))
   \/
   (a <> CarbonCredit.amount c /\
    let newId := Counters.increment (_carbonCreditIds s) in
    s' = set_status _NOT_ENTERED
           (set_ownedCredits
              (<[msg_sender env := creditsOf s (msg_sender env) ++ [newId]]> (ownedCredits s))
              (set_carbonCredits
                 (<[newId := CarbonCredit.mk newId (msg_sender env) a
                               (CarbonCredit.pricePerTon c) (CarbonCredit.certificationHash c)
                               (CarbonCredit.projectDetails c) false (CarbonCredit.vintage c)
                               (CarbonCredit.creditType c)]>
                    (<[id := CarbonCredit.set_amount (CarbonCredit.amount c - a) c]>
                       (carbonCredits s)))
                 (set_carbonCreditIds newId s))))).
Proof.
  unfold tradeCarbonCredit, nonReentrant, validCredit, update_credit, push_ownedCredits,
    _removeFromOwnedCredits. intros Hc.
  inv_M; simpl_state; rewrite ?at_key_insert_eq in *; simpl_state.
  all: repeat match goal with H : (_ <? msg_value _) = _ |- _ => rewrite H; clear H end.
  all: bool_hyps; cbn [app].
  all: repeat (split; [by auto|]).
  all: first
    [ left; split; [done|]; destruct (first_index _ _); simpl_state; eexists; reflexivity
    | right; split; [done|]; reflexivity ].
Qed.

Lemma addVerifier_Ok env v s u s' l :
  addVerifier env v s = Ok (u, s', l) ->
  _owner s = msg_sender env /\
  s' = set_authorizedVerifiers (<[v := true]> (authorizedVerifiers s)) s /\ l = [].
Proof. unfold addVerifier, onlyOwner. intros Hc. inv_M; bool_hyps; auto. Qed.

Lemma removeVerifier_Ok env v s u s' l :
  removeVerifier env v s = Ok (u, s', l) ->
  _owner s = msg_sender env /\
  s' = set_authorizedVerifiers (<[v := false]> (authorizedVerifiers s)) s /\ l = [].
Proof. unfold removeVerifier, onlyOwner. intros Hc. inv_M; bool_hyps; auto. Qed.

Lemma pause_Ok env s u s' l : pause env s = Ok (u, s', l) -> s' = s.
Proof. unfold pause, onlyOwner. intros Hc. by inv_M. Qed.

Lemma renounceOwnership_Ok env s u s' l :
  renounceOwnership env s = Ok (u, s', l) -> s' = set_owner 0 s.
Proof. unfold renounceOwnership, onlyOwner, _transferOwnership. intros Hc. by inv_M. Qed.

Lemma transferOwnership_Ok env n s u s' l :
  transferOwnership env n s = Ok (u, s', l) -> s' = set_owner n s.
Proof. unfold transferOwnership, onlyOwner, _transferOwnership. intros Hc. by inv_M. Qed.

(** ** Transactions and the invariant *)

Lemma outcome_Ok {A} (m : M A) s s' l :
  outcome m s = Ok (s', l) -> exists a, m s = Ok (a, s', l).
Proof.
  unfold outcome. destruct (m s) as [[[a s1] l1]|e]; [|discriminate].
  intros [= -> ->]. eauto.
Qed.

Lemma outcome_nonpayable_Ok {A} env (m : M A) s s' l :
  outcome (nonpayable env;; m) s = Ok (s', l) -> exists a, m s = Ok (a, s', l).
Proof.
  intros Ho. apply outcome_Ok in Ho as [a Ho]. apply bind_Ok in Ho.
  destruct Ho as (u & s1 & l1 & l2 & Hn & Hm & ->).
  unfold nonpayable in Hn. destruct (msg_value env =? 0); [|discriminate].
  injection Hn as <- <- <-. eauto.
Qed.

(** Case analysis on a committed transaction: the call, and what the entry
    point it ran did to the storage. *)
Ltac exec_inv H :=
  match type of H with exec _ ?c _ = Ok _ => destruct c end;
  cbn [exec] in H;
  first [ apply outcome_nonpayable_Ok in H as [? H] | apply outcome_Ok in H as [? H] ];
  [ rewrite reportEmissions_run in H; injection H as _ <- <-
  | apply verifyEmissionReport_Ok in H as (? & ? & ? & ? & ? & -> & ->)
  | apply createDigitalTwin_Ok in H as (? & -> & ->)
  | apply updateDigitalTwin_Ok in H as (? & ? & -> & ->)
  | apply mintCarbonCredit_Ok in H as (? & ? & -> & -> & ->)
  | apply tradeCarbonCredit_Ok in H as
      (? & ? & ? & ? & ? & ? & ? & -> & [(? & ? & ->) | (? & ->)])
  | apply retireCarbonCredit_Ok in H as (? & ? & ? & -> & ->)
  | apply addVerifier_Ok in H as (? & -> & ->)
  | apply removeVerifier_Ok in H as (? & -> & ->)
  | apply pause_Ok in H as ->
  | apply renounceOwnership_Ok in H as ->
  | apply transferOwnership_Ok in H as -> ].

(** A read of a mapping right after a write to it: same key or another. *)
Ltac case_at_key :=
  match goal with
  | |- context [at_key _ (<[?k := _]> _) ?k'] =>
      destruct (decide (k = k')) as [?|?];
      [subst; rewrite !at_key_insert_eq | rewrite !at_key_insert_ne by done]
  | H : context [at_key _ (<[?k := _]> _) ?k'] |- _ =>
      destruct (decide (k = k')) as [?|?];
      [subst; rewrite !at_key_insert_eq in H | rewrite !at_key_insert_ne in H by done]
  end.

Lemma score_average a b : a <= 100 -> b <= 100 -> (a + b) / 2 <= 100.
Proof.
  intros Ha Hb. apply N.Div0.div_le_upper_bound. lia.
Qed.

Lemma score_half a : a <= 100 -> a / 2 <= 100.
Proof. intros Ha. apply N.Div0.div_le_upper_bound. lia. Qed.

Lemma invariant_exec n env c s s' l :
  invariant n s -> n + 1 < UINT256_MODULUS -> exec env c s = Ok (s', l) ->
  invariant (n + 1) s'.
Proof.
  intros (Hst & Hcc & Her & Hret & Htw & Hsc) Hn He.
  exec_inv He; unfold invariant; simpl_state.
  all: rewrite ?increment_small by lia.
  all: repeat split; try done; try lia.
  all: intros.
  all: repeat case_at_key; simpl_state; try done.
  all: try (apply N.le_trans with (_carbonCreditIds s); [by apply Hret | lia]).
  - destruct passed; [apply score_average | apply score_half]; auto.
  - match goal with Hk : <[_ := _]> _ !! _ = Some _ |- _ =>
      apply lookup_insert_Some in Hk as [[<- <-] | [_ Hk]]; [done | by apply Htw]
    end.
  - match goal with Hk : <[_ := _]> _ !! _ = Some _ |- _ =>
      apply lookup_insert_Some in Hk as [[<- <-] | [_ Hk]]; [| by apply Htw]
    end.
    simpl_state. unfold at_key in *.
    destruct (digitalTwins s !! twinId) as [t0|] eqn:Ht0; cbn in *; [by apply Htw | done].
Qed.

Lemma invariant_transact n env c s :
  invariant n s -> n + 1 < UINT256_MODULUS -> invariant (n + 1) (transact env c s).
Proof.
  intros Hi Hn. unfold transact.
  destruct (exec env c s) as [[s' l]|e] eqn:He; [by eapply invariant_exec|].
  destruct Hi as (? & ? & ? & ? & ? & ?). repeat split; auto; lia.
Qed.

Lemma invariant_constructor d : invariant 0 (constructor d).
Proof.
  unfold invariant, constructor; simpl_state. repeat split; done.
Qed.

Lemma reachable_invariant n s :
  reachable n s -> n < UINT256_MODULUS -> invariant n s.
Proof.
  induction 1 as [d | n s env c Hr IH]; intros Hn.
  - apply invariant_constructor.
  - apply invariant_transact; [apply IH; lia | done].
Qed.

Lemma reachable_run n s txs :
  reachable n s -> reachable (n + N.of_nat (length txs)) (run s txs).
Proof.
  revert n s. induction txs as [|[env c] txs IH]; intros n s Hr; cbn [run length].
  - by rewrite N.add_0_r.
  - replace (n + N.of_nat (S (length txs))) with (n + 1 + N.of_nat (length txs)) by lia.
    apply IH. by constructor.
Qed.

(** ** Conservation of a minted amount *)

Lemma total_amount_app s fam x :
  total_amount s (fam ++ [x]) = total_amount s fam + CarbonCredit.amount (credit s x).
Proof.
  unfold total_amount. induction fam as [|i fam IH]; cbn [foldr app]; [lia|].
  rewrite IH. lia.
Qed.

Lemma total_amount_agree s s' fam :
  (forall i, i ∈ fam ->
     CarbonCredit.amount (credit s' i) = CarbonCredit.amount (credit s i)) ->
  total_amount s' fam = total_amount s fam.
Proof.
  unfold total_amount. induction fam as [|i fam IH]; intros Hag; cbn [foldr]; [done|].
  rewrite Hag by (apply elem_of_cons; by left). rewrite IH; [done|].
  intros j Hj. apply Hag. (apply elem_of_cons; by right).
Qed.

(** Taking [a] off one member of a duplicate-free family takes [a] off the
    total. *)
Lemma total_amount_take s s' fam parent a :
  NoDup fam -> parent ∈ fam ->
  CarbonCredit.amount (credit s' parent) + a = CarbonCredit.amount (credit s parent) ->
  (forall i, i ∈ fam -> i <> parent ->
     CarbonCredit.amount (credit s' i) = CarbonCredit.amount (credit s i)) ->
  total_amount s' fam + a = total_amount s fam.
Proof.
  intros Hnd. induction Hnd as [|i fam Hni Hnd IH]; intros Hin Hpar Hag.
  - by apply elem_of_nil in Hin.
  - unfold total_amount in *. cbn [foldr].
    destruct (decide (i = parent)) as [->|Hne].
    + fold (total_amount s' fam). fold (total_amount s fam).
      rewrite (total_amount_agree s s' fam).
      * lia.
      * intros j Hj. apply Hag; [(apply elem_of_cons; by right) | by intros ->].
    + apply elem_of_cons in Hin as [->|Hin]; [done|].
      rewrite Hag by (done || (apply elem_of_cons; by left)).
      rewrite <- IH; [lia | done | done |].
      intros j Hj Hjne. apply Hag; [(apply elem_of_cons; by right) | done].
Qed.

(** One transaction: the total over the family is kept, and the family
    stays a duplicate-free set of ids that the counter has handed out. *)
Lemma lineage_step n env c s fam :
  invariant n s -> n + 1 < UINT256_MODULUS ->
  NoDup fam -> (forall i, i ∈ fam -> i <= _carbonCreditIds s) ->
  let fam' :=
    match split_of env c s with
    | Some (parent, child) =>
        if bool_decide (parent ∈ fam) then fam ++ [child] else fam
    | None => fam
    end in
  total_amount (transact env c s) fam' = total_amount s fam /\
  NoDup fam' /\
  (forall i, i ∈ fam' -> i <= _carbonCreditIds (transact env c s)).
Proof.
  intros (_ & Hcc & _) Hn Hnd Hbound. unfold transact, split_of.
  destruct (exec env c s) as [[s' l]|e] eqn:He.
  2: { destruct c; cbn zeta; auto. }
  assert (Hfresh : forall i, i ∈ fam -> i <> _carbonCreditIds s + 1).
  { intros i Hi ->. apply Hbound in Hi. lia. }
  pose proof He as He'. exec_inv He'; cbn zeta; try rewrite He; simpl_state.
  all: rewrite ?increment_small by lia.
  all: try rewrite (proj2 (N.eqb_eq _ _)) by done.
  all: try rewrite (proj2 (N.eqb_neq _ _)) by done.
  all: try case_bool_decide.
  all: try (split; [|split]; [apply total_amount_agree; intros; simpl_state | done | done]).
  all: try done.
  - (* mint: a fresh lot, outside the family *)
    split; [|split]; [apply total_amount_agree; intros i Hi; simpl_state | done |].
    + rewrite at_key_insert_ne; [done|]. intros Heq. by apply (Hfresh i).
    + intros i Hi. apply Hbound in Hi. lia.
  - (* full trade: the owner changes, the amount does not *)
    by case_at_key.
  - (* split of a member: what the parent loses, the child holds *)
    split; [|split].
    + rewrite total_amount_app. simpl_state. rewrite at_key_insert_eq. simpl_state.
      apply total_amount_take with (parent := creditId); [done | done | |].
      * simpl_state. rewrite at_key_insert_ne by (intros Heq; by apply (Hfresh creditId)).
        rewrite at_key_insert_eq. simpl_state. lia.
      * intros i Hi Hne. simpl_state.
        rewrite at_key_insert_ne by (intros Heq; by apply (Hfresh i)).
        by rewrite at_key_insert_ne.
    + apply NoDup_app. split; [done|]. split; [|apply NoDup_singleton].
      intros i Hi Hi'. apply list_elem_of_singleton in Hi'. by apply (Hfresh i).
    + intros i Hi. apply elem_of_app in Hi as [Hi|Hi].
      * apply Hbound in Hi. lia.
      * apply list_elem_of_singleton in Hi. lia.
  - (* split of a lot outside the family *)
    split; [|split]; [apply total_amount_agree; intros i Hi; simpl_state | done |].
    + rewrite at_key_insert_ne by (intros Heq; by apply (Hfresh i)).
      rewrite at_key_insert_ne; [done|]. by intros ->.
    + intros i Hi. apply Hbound in Hi. lia.
  - (* retirement: the flag changes, the amount does not *)
    by case_at_key.
Qed.

Lemma lineage_conserves txs : forall n s fam,
  invariant n s -> n + N.of_nat (length txs) < UINT256_MODULUS ->
  NoDup fam -> (forall i, i ∈ fam -> i <= _carbonCreditIds s) ->
  total_amount (run s txs) (lineage s txs fam) = total_amount s fam.
Proof.
  induction txs as [|[env c] txs IH]; intros n s fam Hinv Hn Hnd Hbound; [done|].
  cbn [run lineage length] in *.
  destruct (lineage_step n env c s fam) as (Htot & Hnd' & Hbound'); [done | lia | done | done |].
  rewrite (IH (n + 1)); [done | | | done | done].
  - apply invariant_transact; [done | lia].
  - lia.
Qed.

(** C1. Conservation of a minted amount: once [mintCarbonCredit] has created
    a lot of [amount] tons, then after any sequence of transactions (full
    trades, partial splits, and any other call) the amounts of the lot and of
    all the lots split off from it, transitively, add up to [amount].  The
    contract has seen fewer than [2^256] transactions: the credit counter,
    incremented without overflow check, has not wrapped around. *)
Theorem C1_conservation n s0 env amount pricePerTon cert details vintage creditType s1 l txs :
  reachable n s0 ->
  n + 1 + N.of_nat (length txs) < UINT256_MODULUS ->
  exec env (MintCarbonCredit amount pricePerTon cert details vintage creditType) s0
    = Ok (s1, l) ->
  total_amount (run s1 txs) (lineage s1 txs [_carbonCreditIds s1]) = amount.
Proof.
  intros Hr Hn He.
  assert (Hinv : invariant n s0) by (apply reachable_invariant; [done | lia]).
  assert (Hinv1 : invariant (n + 1) s1) by (eapply invariant_exec; [done | lia | done]).
  rewrite (lineage_conserves txs (n + 1) s1); [| done | lia | apply NoDup_singleton |].
  - apply outcome_nonpayable_Ok in He as [r He].
    apply mintCarbonCredit_Ok in He as (_ & _ & -> & -> & _).
    unfold total_amount. cbn [foldr]. simpl_state. rewrite at_key_insert_eq. simpl_state. lia.
  - intros i Hi. apply list_elem_of_singleton in Hi. by subst.
Qed.

(** ** Facts that no later transaction undoes *)

Lemma run_stable (P : State -> Prop) :
  (forall n env c s,
      invariant n s -> n + 1 < UINT256_MODULUS -> P s -> P (transact env c s)) ->
  forall txs n s,
    invariant n s -> n + N.of_nat (length txs) < UINT256_MODULUS -> P s -> P (run s txs).
Proof.
  intros Hstep. induction txs as [|[env c] txs IH]; intros n s Hinv Hn HP; [done|].
  cbn [run length] in *. apply (IH (n + 1)).
  - apply invariant_transact; [done | lia].
  - lia.
  - apply (Hstep n); [done | lia | done].
Qed.

(** Evaluation of a monadic computation from known facts. *)
Ltac step_M :=
  unfold mbind, M_bind, mret, M_ret, bind, require, gets, modify, emit;
  unfold ret, revert; cbv beta iota.

Lemma verified_as_transact reportId sc who n env c s :
  invariant n s -> n + 1 < UINT256_MODULUS ->
  verified_as reportId sc who s -> verified_as reportId sc who (transact env c s).
Proof.
  intros (_ & _ & Her & _) Hn (Hid & Hv & Hsc & Hby). unfold transact.
  destruct (exec env c s) as [[s' l]|e] eqn:He; [|done].
  exec_inv He; unfold verified_as; simpl_state; try done.
  - rewrite increment_small by lia.
    rewrite at_key_insert_ne by lia. repeat split; try done. lia.
  - case_at_key; [congruence | done].
Qed.

Lemma verifyEmissionReport_again env reportId sc passed s :
  isVerifier s (msg_sender env) = true ->
  reportId <= _emissionReportIds s ->
  sc <= 100 ->
  EmissionReport.verified (report s reportId) = true ->
  verifyEmissionReport env reportId sc passed s = Err (Require "Report already verified").
Proof.
  intros Hv Hid Hsc Hver. apply N.leb_le in Hid, Hsc.
  unfold verifyEmissionReport, onlyVerifier, validReport. step_M. simpl_state.
  rewrite Hv. cbv beta iota. rewrite Hid. cbv beta iota. rewrite Hsc. cbv beta iota.
  by rewrite Hver.
Qed.

Lemma transact_Err env c s e : exec env c s = Err e -> transact env c s = s.
Proof. unfold transact. by intros ->. Qed.

Lemma outcome_nonpayable_Err {A} env (m : M A) s e :
  m s = Err e -> exists e', outcome (nonpayable env;; m) s = Err e'.
Proof.
  intros Hm. unfold outcome, nonpayable. step_M.
  destruct (msg_value env =? 0); cbv beta iota; [rewrite Hm|]; eauto.
Qed.

(** C4. Verification happens exactly once: after [verifyEmissionReport] has
    succeeded on a report, and whatever transactions follow, a further call on
    the same report by any authorized verifier with any score up to 100 fails
    with the already-verified error, changes nothing, and the score and the
    verifier recorded by the first call are still there.  (Fewer than [2^256]
    transactions: the report counter has not wrapped around.) *)
Theorem C4_verification_exactly_once
    n s0 env1 reportId score1 passed1 s1 l1 txs env2 score2 passed2 :
  reachable n s0 ->
  n + 1 + N.of_nat (length txs) < UINT256_MODULUS ->
  exec env1 (VerifyEmissionReport reportId score1 passed1) s0 = Ok (s1, l1) ->
  let s2 := run s1 txs in
  let again := VerifyEmissionReport reportId score2 passed2 in
  isVerifier s2 (msg_sender env2) = true ->
  score2 <= 100 ->
  verifyEmissionReport env2 reportId score2 passed2 s2
    = Err (Require "Report already verified") /\
  fails_with (verifyEmissionReport env2 reportId score2 passed2 s2) AlreadyVerifiedError /\
  transact env2 again s2 = s2 /\
  EmissionReport.verificationScore (report (transact env2 again s2) reportId) = score1 /\
  EmissionReport.verifier (report (transact env2 again s2) reportId) = msg_sender env1.
Proof.
  intros Hr Hn He s2 again Hv Hsc.
  assert (Hinv : invariant n s0) by (apply reachable_invariant; [done | lia]).
  assert (Hinv1 : invariant (n + 1) s1) by (eapply invariant_exec; [done | lia | done]).
  assert (H1 : verified_as reportId score1 (msg_sender env1) s1).
  { apply outcome_nonpayable_Ok in He as [u He].
    apply verifyEmissionReport_Ok in He as (_ & Hid & _ & _ & _ & -> & _).
    unfold verified_as. simpl_state. rewrite at_key_insert_eq. simpl_state. done. }
  assert (H2 : verified_as reportId score1 (msg_sender env1) s2).
  { apply (run_stable (verified_as reportId score1 (msg_sender env1))
             (verified_as_transact reportId score1 (msg_sender env1)) txs (n + 1));
      [done | lia | done]. }
  destruct H2 as (Hid & Hver & Hs & Hby).
  assert (Herr : verifyEmissionReport env2 reportId score2 passed2 s2
                 = Err (Require "Report already verified"))
    by (by apply verifyEmissionReport_again).
  assert (Hsame : transact env2 again s2 = s2).
  { destruct (outcome_nonpayable_Err env2 _ _ _ Herr) as [e' He'].
    by apply (transact_Err _ _ _ e'). }
  rewrite Hsame, Herr. repeat split; done.
Qed.

Lemma retired_transact creditId n env c s :
  invariant n s -> n + 1 < UINT256_MODULUS ->
  CarbonCredit.retired (credit s creditId) = true ->
  CarbonCredit.retired (credit (transact env c s) creditId) = true.
Proof.
  intros (_ & Hcc & _ & Hret & _) Hn Hr. unfold transact.
  destruct (exec env c s) as [[s' l]|e] eqn:He; [|done].
  pose proof (Hret _ Hr) as Hid.
  exec_inv He; simpl_state; try done.
  all: rewrite ?increment_small by lia.
  - by rewrite at_key_insert_ne by lia.
  - by case_at_key.
  - rewrite at_key_insert_ne by lia. by case_at_key.
  - by case_at_key.
Qed.

Lemma validCredit_retired creditId s :
  creditId <= _carbonCreditIds s ->
  CarbonCredit.retired (credit s creditId) = true ->
  validCredit creditId s = Err (Require "Credit already retired").
Proof.
  intros Hid Hr. apply N.leb_le in Hid. unfold validCredit. step_M. simpl_state.
  rewrite Hid. cbv beta iota. by rewrite Hr.
Qed.

Lemma validCredit_unknown creditId s :
  _carbonCreditIds s < creditId ->
  validCredit creditId s = Err (Require "Invalid credit ID").
Proof.
  intros Hid. apply N.leb_gt in Hid. unfold validCredit. step_M. simpl_state.
  by rewrite Hid.
Qed.

Lemma nonReentrant_Err {A} (body : M A) s e :
  _status s = _NOT_ENTERED ->
  body (set_status _ENTERED s) = Err e ->
  nonReentrant body s = Err e.
Proof.
  intros Hst Hb. unfold nonReentrant. step_M. rewrite Hst.
  cbn [negb N.eqb Pos.eqb _NOT_ENTERED _ENTERED]. cbv beta iota. by rewrite Hb.
Qed.

Lemma tradeCarbonCredit_validCredit_Err env creditId amount s e :
  _status s = _NOT_ENTERED ->
  validCredit creditId (set_status _ENTERED s) = Err e ->
  tradeCarbonCredit env creditId amount s = Err e.
Proof.
  intros Hst Hv. unfold tradeCarbonCredit. apply nonReentrant_Err; [done|].
  by apply bind_Err.
Qed.

Lemma retireCarbonCredit_validCredit_Err env creditId s e :
  validCredit creditId s = Err e -> retireCarbonCredit env creditId s = Err e.
Proof. intros Hv. unfold retireCarbonCredit. by apply bind_Err. Qed.

Lemma transact_trade_Err env creditId amount s e :
  tradeCarbonCredit env creditId amount s = Err e ->
  transact env (TradeCarbonCredit creditId amount) s = s.
Proof. intros He. unfold transact. cbn [exec]. unfold outcome. by rewrite He. Qed.

Lemma transact_nonpayable_Err {A} env c (m : M A) s e :
  exec env c = outcome (nonpayable env;; m) ->
  m s = Err e -> transact env c s = s.
Proof.
  intros Hc Hm. destruct (outcome_nonpayable_Err env m s e Hm) as [e' He'].
  apply (transact_Err _ _ _ e'). by rewrite Hc.
Qed.

(** C5. Retirement is terminal: once a lot is retired, it stays retired
    through every later transaction, and every later [tradeCarbonCredit] or
    [retireCarbonCredit] on it fails with the already-retired error and leaves
    the storage as it was.  (Fewer than [2^256] transactions: the credit
    counter has not wrapped around.) *)
Theorem C5_retirement_terminal n s creditId txs env amount :
  reachable n s ->
  n + N.of_nat (length txs) < UINT256_MODULUS ->
  CarbonCredit.retired (credit s creditId) = true ->
  let s' := run s txs in
  CarbonCredit.retired (credit s' creditId) = true /\
  tradeCarbonCredit env creditId amount s' = Err (Require "Credit already retired") /\
  fails_with (tradeCarbonCredit env creditId amount s') AlreadyRetiredError /\
  transact env (TradeCarbonCredit creditId amount) s' = s' /\
  retireCarbonCredit env creditId s' = Err (Require "Credit already retired") /\
  fails_with (retireCarbonCredit env creditId s') AlreadyRetiredError /\
  transact env (RetireCarbonCredit creditId) s' = s'.
Proof.
  intros Hr Hn Hret s'.
  assert (Hinv : invariant n s) by (apply reachable_invariant; [done | lia]).
  assert (Hr' : reachable (n + N.of_nat (length txs)) s') by (by apply reachable_run).
  assert (Hinv' : invariant (n + N.of_nat (length txs)) s')
    by (by apply reachable_invariant).
  assert (Hret' : CarbonCredit.retired (credit s' creditId) = true).
  { apply (run_stable (fun s => CarbonCredit.retired (credit s creditId) = true)
             (retired_transact creditId) txs n); done. }
  destruct Hinv' as (Hst & _ & _ & Hbound & _).
  assert (Htrade : tradeCarbonCredit env creditId amount s'
                   = Err (Require "Credit already retired")).
  { apply tradeCarbonCredit_validCredit_Err; [done|].
    apply validCredit_retired; simpl_state; auto. }
  assert (Hretire : retireCarbonCredit env creditId s'
                    = Err (Require "Credit already retired")).
  { apply retireCarbonCredit_validCredit_Err. apply validCredit_retired; auto. }
  rewrite Htrade, Hretire. repeat split; try done.
  - by apply (transact_trade_Err _ _ _ _ _ Htrade).
  - by apply (transact_nonpayable_Err env (RetireCarbonCredit creditId)
                (retireCarbonCredit env creditId) s' _ eq_refl Hretire).
Qed.

(** The history of the scenarios: each state is that of a deployed contract. *)
Lemma reachable_genesis : reachable 0 genesis.
Proof. apply reach_deploy. Qed.

Lemma reachable_minted : reachable 1 minted.
Proof. apply (reach_tx 0), reachable_genesis. Qed.

Lemma reachable_reported : reachable 1 reported.
Proof. apply (reach_tx 0), reachable_genesis. Qed.

Lemma reachable_retired_lot : reachable 2 retired_lot.
Proof. apply (reach_tx 1), reachable_minted. Qed.

Lemma reachable_zero_traded : reachable 2 zero_traded.
Proof. apply (reach_tx 1), reachable_minted. Qed.

Lemma C1_conservation_witness :
  total_amount (run minted market) (lineage minted market [_carbonCreditIds minted]) = 100.
Proof.
  apply (C1_conservation 0 genesis (eoa_env alice 0 dec_20_2025)
           100 10 "cert" "project" 2024 CARBON_CAPTURE minted
           [Emitted (CarbonCreditMinted 1 alice 100 CARBON_CAPTURE)] market).
  - apply reachable_genesis.
  - vm_compute. reflexivity.
  - vm_compute. reflexivity.
Defined.

(** In the scenario the family of lot 1 is made of the lots 1, 2 and 3,
    which hold 60, 30 and 10 tons. *)
Example market_lineage :
  lineage minted market [1] = [1; 2; 3] /\
  map (fun i => CarbonCredit.amount (credit (run minted market) i)) [1; 2; 3] = [60; 30; 10].
Proof. split; vm_compute; reflexivity. Qed.

Lemma C4_verification_exactly_once_witness :
  let s2 := run verified_once later in
  let env2 := eoa_env carol 0 dec_20_2025 in
  verifyEmissionReport env2 1 10 false s2 = Err (Require "Report already verified") /\
  fails_with (verifyEmissionReport env2 1 10 false s2) AlreadyVerifiedError /\
  transact env2 (VerifyEmissionReport 1 10 false) s2 = s2 /\
  EmissionReport.verificationScore
    (report (transact env2 (VerifyEmissionReport 1 10 false) s2) 1) = 90 /\
  EmissionReport.verifier
    (report (transact env2 (VerifyEmissionReport 1 10 false) s2) 1) = deployer.
Proof.
  apply (C4_verification_exactly_once 1 reported (eoa_env deployer 0 dec_20_2025)
           1 90 true verified_once [Emitted (EmissionVerified 1 deployer 90 true)] later
           (eoa_env carol 0 dec_20_2025) 10 false).
  - apply reachable_reported.
  - vm_compute. reflexivity.
  - vm_compute. reflexivity.
  - vm_compute. reflexivity.
  - vm_compute. discriminate.
Defined.

Lemma C5_retirement_terminal_witness :
  let s' := run retired_lot market in
  let env := eoa_env bob 100 dec_20_2025 in
  CarbonCredit.retired (credit s' 1) = true /\
  tradeCarbonCredit env 1 10 s' = Err (Require "Credit already retired") /\
  fails_with (tradeCarbonCredit env 1 10 s') AlreadyRetiredError /\
  transact env (TradeCarbonCredit 1 10) s' = s' /\
  retireCarbonCredit env 1 s' = Err (Require "Credit already retired") /\
  fails_with (retireCarbonCredit env 1 s') AlreadyRetiredError /\
  transact env (RetireCarbonCredit 1) s' = s'.
Proof.
  apply (C5_retirement_terminal 2 retired_lot 1 market (eoa_env bob 100 dec_20_2025) 10).
  - apply reachable_retired_lot.
  - vm_compute. reflexivity.
  - vm_compute. reflexivity.
Defined.

(** ** Payment *)

Lemma received_app a l1 l2 : received a (l1 ++ l2) = received a l1 + received a l2.
Proof.
  induction l1 as [|[e|to v] l1 IH]; cbn [received app]; [done | done |].
  rewrite IH. lia.
Qed.

(** C2. Payment exactness: a trade of [amount] tons of a lot priced [p] per
    ton that succeeds with attached payment [v] sends exactly [p * amount] to
    the previous owner and exactly [v - p * amount] back to the caller, and
    nothing else. *)
Theorem C2_payment_exactness env creditId amount s u s' l :
  tradeCarbonCredit env creditId amount s = Ok (u, s', l) ->
  let c := credit s creditId in
  let due := CarbonCredit.pricePerTon c * amount in
  due <= msg_value env /\
  received (CarbonCredit.owner c) l = due /\
  received (msg_sender env) l = msg_value env - due /\
  l = Sent (CarbonCredit.owner c) due ::
      (if due <? msg_value env then [Sent (msg_sender env) (msg_value env - due)] else [])
      ++ [Emitted (CarbonCreditTraded creditId (CarbonCredit.owner c) (msg_sender env)
                     amount due)].
Proof.
  intros Ht c due. apply tradeCarbonCredit_Ok in Ht.
  destruct Ht as (_ & _ & _ & _ & _ & Hdue & Hown & Hl & _).
  fold c in Hdue, Hown, Hl. fold due in Hdue, Hl.
  split; [done|]. split; [|split]; [| |exact Hl].
  - rewrite Hl. cbn [received]. rewrite received_app, N.eqb_refl.
    assert (Hne : (msg_sender env =? CarbonCredit.owner c) = false)
      by (apply N.eqb_neq; congruence).
    destruct (due <? msg_value env); cbn [received]; rewrite ?Hne; lia.
  - rewrite Hl. cbn [received]. rewrite received_app.
    assert (Hne : (CarbonCredit.owner c =? msg_sender env) = false) by (by apply N.eqb_neq).
    rewrite Hne.
    destruct (N.ltb_spec due (msg_value env)); cbn [received]; rewrite ?N.eqb_refl; lia.
Qed.

Lemma C2_payment_exactness_witness :
  let env := eoa_env bob 405 dec_20_2025 in
  let l := [Sent alice 400; Sent bob 5; Emitted (CarbonCreditTraded 1 alice bob 40 400)] in
  tradeCarbonCredit env 1 40 minted = Ok (tt, partly_traded, l) /\
  received alice l = 400 /\
  received bob l = 5.
Proof.
  intros env l.
  assert (Ht : tradeCarbonCredit env 1 40 minted = Ok (tt, partly_traded, l))
    by (vm_compute; reflexivity).
  split; [exact Ht|].
  destruct (C2_payment_exactness env 1 40 minted tt partly_traded l Ht)
    as (_ & Hseller & Hbuyer & _).
  split; [exact Hseller | exact Hbuyer].
Defined.

(** ** Verification score *)

(** C7. Score update rule: a successful [verifyEmissionReport] with score
    [sc] marks the report verified, records the score and the verifier, and
    sets the score of the reporting company to [(old + sc) / 2] when the report
    passed and to [old / 2] when it did not (integer division). *)
Theorem C7_score_update env reportId sc passed s u s' l :
  verifyEmissionReport env reportId sc passed s = Ok (u, s', l) ->
  let company := EmissionReport.company (report s reportId) in
  let old := score s company in
  sc <= 100 /\
  EmissionReport.verified (report s reportId) = false /\
  score s' company = (if passed then (old + sc) / 2 else old / 2) /\
  EmissionReport.verified (report s' reportId) = true /\
  EmissionReport.verificationScore (report s' reportId) = sc /\
  EmissionReport.verifier (report s' reportId) = msg_sender env.
Proof.
  intros Hv company old. apply verifyEmissionReport_Ok in Hv.
  destruct Hv as (_ & _ & Hsc & Hunv & _ & -> & _).
  subst company old. simpl_state. rewrite !at_key_insert_eq. simpl_state.
  repeat split; done.
Qed.

Lemma C7_score_update_witness :
  let env := eoa_env deployer 0 dec_20_2025 in
  verifyEmissionReport env 1 90 true reported
    = Ok (tt, verified_once, [Emitted (EmissionVerified 1 deployer 90 true)]) /\
  score reported alice = 0 /\
  score verified_once alice = 45 /\
  EmissionReport.verified (report verified_once 1) = true.
Proof.
  intros env.
  assert (Hv : verifyEmissionReport env 1 90 true reported
               = Ok (tt, verified_once, [Emitted (EmissionVerified 1 deployer 90 true)]))
    by (vm_compute; reflexivity).
  split; [exact Hv|]. split; [vm_compute; reflexivity|].
  destruct (C7_score_update env 1 90 true reported tt verified_once _ Hv)
    as (_ & _ & Hscore & Hver & _).
  split; [exact Hscore | exact Hver].
Defined.

(** Under its preconditions the verification does succeed: in a reachable
    state the scores are at most 100, so the sum cannot overflow. *)
Lemma verifyEmissionReport_succeeds n env reportId sc passed s :
  reachable n s -> n < UINT256_MODULUS ->
  isVerifier s (msg_sender env) = true ->
  reportId <= _emissionReportIds s ->
  sc <= 100 ->
  EmissionReport.verified (report s reportId) = false ->
  exists s', verifyEmissionReport env reportId sc passed s
             = Ok (tt, s', [Emitted (EmissionVerified reportId (msg_sender env) sc passed)]).
Proof.
  intros Hr Hn Hv Hid Hsc Hunv.
  destruct (reachable_invariant n s Hr Hn) as (_ & _ & _ & _ & _ & Hscore).
  pose proof (Hscore (EmissionReport.company (report s reportId))) as Hold.
  apply N.leb_le in Hid. pose proof Hsc as Hsc'. apply N.leb_le in Hsc'.
  unfold verifyEmissionReport, onlyVerifier, validReport, update_report, checked_add.
  step_M. simpl_state.
  rewrite Hv. cbv beta iota. rewrite Hid. cbv beta iota. rewrite Hsc'. cbv beta iota.
  rewrite Hunv. cbn [negb]. cbv beta iota. rewrite !at_key_insert_eq. simpl_state.
  destruct passed; cbv beta iota; [|eauto].
  match goal with |- context [?a + ?b <? UINT256_MODULUS] =>
    assert (Hfit : (a + b <? UINT256_MODULUS) = true)
  end.
  { apply N.ltb_lt. unfold UINT256_MODULUS.
    apply N.le_lt_trans with 200; [lia|]. vm_compute. reflexivity. }
  rewrite Hfit. unfold ret. cbv beta iota. eauto.
Qed.

(** ** Digital twins *)

Lemma updateDigitalTwin_not_owner env twinId newEmissions s :
  DigitalTwin.owner (twin s twinId) <> msg_sender env ->
  updateDigitalTwin env twinId newEmissions s = Err (Require "Not twin owner").
Proof.
  intros Hne. apply N.eqb_neq in Hne. unfold updateDigitalTwin. step_M. by rewrite Hne.
Qed.

Lemma updateDigitalTwin_inactive env twinId newEmissions s :
  DigitalTwin.owner (twin s twinId) = msg_sender env ->
  DigitalTwin.active (twin s twinId) = false ->
  updateDigitalTwin env twinId newEmissions s = Err (Require "Twin not active").
Proof.
  intros Hown Hact. apply N.eqb_eq in Hown. unfold updateDigitalTwin. step_M.
  rewrite Hown. cbv beta iota. by rewrite Hact.
Qed.

(** The claim as the specification words it fails: an update of a twin that
    does not exist is not answered with the not-found kind of error. *)
Lemma C9_counterexample :
  let call := updateDigitalTwin (eoa_env alice 0 dec_20_2025) "nowhere" 5 genesis in
  digitalTwins genesis !! "nowhere" = None /\
  call = Err (Require "Not twin owner") /\
  fails_with call AuthorizationError /\
  ~ fails_with call NotFoundError.
Proof.
  cbv zeta. split; [vm_compute; reflexivity|].
  assert (Hc : updateDigitalTwin (eoa_env alice 0 dec_20_2025) "nowhere" 5 genesis
               = Err (Require "Not twin owner")) by (vm_compute; reflexivity).
  rewrite Hc. split; [reflexivity|]. split; [vm_compute; reflexivity|].
  vm_compute. discriminate.
Qed.

(** C9 (as the code has it). [updateDigitalTwin] checks the owner first and
    has no separate existence check: for a twin that does not exist, every
    caller (the zero address cannot call) is refused as not being the owner,
    an authorization error; for an existing twin a caller other than the owner
    gets the same error, and the owner of an inactive twin gets the inactive
    error.  A failed call changes nothing. *)
Theorem C9_update_twin_rejections env twinId newEmissions s :
  let call := updateDigitalTwin env twinId newEmissions s in
  (digitalTwins s !! twinId = None -> msg_sender env <> 0 ->
     call = Err (Require "Not twin owner") /\ fails_with call AuthorizationError) /\
  (forall t, digitalTwins s !! twinId = Some t -> DigitalTwin.owner t <> msg_sender env ->
     call = Err (Require "Not twin owner") /\ fails_with call AuthorizationError) /\
  (forall t, digitalTwins s !! twinId = Some t -> DigitalTwin.owner t = msg_sender env ->
     DigitalTwin.active t = false ->
     call = Err (Require "Twin not active") /\ fails_with call InactiveError) /\
  (forall e, call = Err e ->
     transact env (UpdateDigitalTwin twinId newEmissions) s = s).
Proof.
  cbv zeta.
  assert (Hnone : digitalTwins s !! twinId = None -> msg_sender env <> 0 ->
                  DigitalTwin.owner (twin s twinId) <> msg_sender env).
  { intros Hk Hs. unfold twin. rewrite (at_key_None _ _ _ Hk). cbn. congruence. }
  assert (Hsome : forall t, digitalTwins s !! twinId = Some t -> twin s twinId = t).
  { intros t Hk. unfold twin. by rewrite (at_key_Some _ _ _ _ Hk). }
  split; [|split; [|split]].
  - intros Hk Hs. rewrite updateDigitalTwin_not_owner by auto. by split.
  - intros t Hk Hne. rewrite updateDigitalTwin_not_owner by (by rewrite (Hsome t Hk)).
    by split.
  - intros t Hk Hown Hact.
    rewrite updateDigitalTwin_inactive by (by rewrite (Hsome t Hk)). by split.
  - intros e He.
    by apply (transact_nonpayable_Err env (UpdateDigitalTwin twinId newEmissions)
                (updateDigitalTwin env twinId newEmissions) s e eq_refl He).
Qed.

Lemma C9_update_twin_rejections_witness :
  let nobody := updateDigitalTwin (eoa_env alice 0 dec_20_2025) "nowhere" 5 genesis in
  let stranger := updateDigitalTwin (eoa_env bob 0 dec_20_2025) "plant" 5 plant_twin in
  (nobody = Err (Require "Not twin owner") /\ fails_with nobody AuthorizationError) /\
  (stranger = Err (Require "Not twin owner") /\ fails_with stranger AuthorizationError) /\
  transact (eoa_env bob 0 dec_20_2025) (UpdateDigitalTwin "plant" 5) plant_twin = plant_twin.
Proof.
  cbv zeta.
  destruct (C9_update_twin_rejections (eoa_env alice 0 dec_20_2025) "nowhere" 5 genesis)
    as (Hnone & _).
  destruct (C9_update_twin_rejections (eoa_env bob 0 dec_20_2025) "plant" 5 plant_twin)
    as (_ & Hother & _ & Hsame).
  split; [|split].
  - apply Hnone; [vm_compute; reflexivity | vm_compute; discriminate].
  - apply (Hother (DigitalTwin.mk "plant" alice "factory" 100 100 dec_20_2025 true "h"));
      [vm_compute; reflexivity | vm_compute; discriminate].
  - apply (Hsame (Require "Not twin owner")). vm_compute. reflexivity.
Defined.

(** A second twin under a key that is not empty is refused: the twin stored
    under a key carries that key, whose length is then not zero. *)
Lemma createDigitalTwin_duplicate n env twinId facilityType baseline dataHash s t :
  reachable n s -> n < UINT256_MODULUS ->
  digitalTwins s !! twinId = Some t ->
  twinId <> "" ->
  let call := createDigitalTwin env twinId facilityType baseline dataHash s in
  call = Err (Require "Twin ID already exists") /\
  fails_with call DuplicateKeyError /\
  transact env (CreateDigitalTwin twinId facilityType baseline dataHash) s = s.
Proof.
  intros Hr Hn Ht Hne call.
  destruct (reachable_invariant n s Hr Hn) as (_ & _ & _ & _ & Htw & _).
  assert (Hc : call = Err (Require "Twin ID already exists")).
  { subst call. unfold createDigitalTwin. step_M. unfold twin.
    rewrite (at_key_Some _ _ _ _ Ht), (Htw _ _ Ht).
    destruct twinId as [|a k]; [done|]. reflexivity. }
  rewrite Hc. repeat split.
  by apply (transact_nonpayable_Err env
              (CreateDigitalTwin twinId facilityType baseline dataHash)
              (createDigitalTwin env twinId facilityType baseline dataHash) s _ eq_refl Hc).
Qed.

(** C10 (what the code does). The existence test of [createDigitalTwin] is
    the length of the stored key, so a twin created under the empty key does
    not count as existing: a second creation under the empty key, by another
    caller, succeeds and replaces the twin, owner included. *)
Theorem C10_empty_key_created_twice :
  let again :=
    createDigitalTwin (eoa_env bob 0 dec_20_2025) "" "office" 5 "g" empty_twin in
  reachable 1 empty_twin /\
  digitalTwins empty_twin !! ""
    = Some (DigitalTwin.mk "" alice "factory" 100 100 dec_20_2025 true "h") /\
  ~ fails_with again DuplicateKeyError /\
  exists s' l,
    again = Ok (tt, s', l) /\
    digitalTwins s' !! ""
      = Some (DigitalTwin.mk "" bob "office" 5 5 dec_20_2025 true "g").
Proof.
  cbv zeta. split; [apply (reach_tx 0), reachable_genesis|].
  split; [vm_compute; reflexivity|].
  split; [vm_compute; tauto|].
  eexists. eexists. split; vm_compute; reflexivity.
Qed.

(** ** Lots of amount zero *)

(** [mintCarbonCredit] refuses an amount of zero. *)
Lemma mintCarbonCredit_zero env pricePerTon cert details vintage creditType s :
  mintCarbonCredit env 0 pricePerTon cert details vintage creditType s
    = Err (Require "Amount must be greater than 0").
Proof. reflexivity. Qed.

(** C3 (what the code does). [tradeCarbonCredit] has no such test: a trade
    of amount zero of a lot that holds more is a partial trade, and it creates
    a new lot, not retired, whose amount is zero. *)
Theorem C3_zero_amount_lot :
  reachable 2 zero_traded /\
  tradeCarbonCredit (eoa_env bob 0 dec_20_2025) 1 0 minted
    = Ok (tt, zero_traded, [Sent alice 0; Emitted (CarbonCreditTraded 1 alice bob 0 0)]) /\
  lot_exists zero_traded 2 /\
  CarbonCredit.retired (credit zero_traded 2) = false /\
  CarbonCredit.amount (credit zero_traded 2) = 0.
Proof.
  split; [apply reachable_zero_traded|].
  split; [vm_compute; reflexivity|].
  split; [|split; vm_compute; reflexivity].
  unfold lot_exists. split; vm_compute; discriminate.
Qed.

(** Apart from the lots that a trade of amount zero creates, the lots that
    were handed out and are not retired hold a positive amount. *)
Lemma positive_amount_transact n env c s :
  invariant n s -> n + 1 < UINT256_MODULUS ->
  (forall a i, c = TradeCarbonCredit i a -> a <> 0) ->
  (forall i, lot_exists s i -> 0 < CarbonCredit.amount (credit s i)) ->
  forall i, lot_exists (transact env c s) i ->
    0 < CarbonCredit.amount (credit (transact env c s) i).
Proof.
  intros (_ & Hcc & _) Hn Hnz Hpos i. unfold transact, lot_exists.
  destruct (exec env c s) as [[s' l]|e] eqn:He; [|apply Hpos].
  exec_inv He; simpl_state; try apply Hpos.
  all: rewrite ?increment_small by lia.
  all: intros Hi.
  - case_at_key; simpl_state; [done|]. apply Hpos. unfold lot_exists. lia.
  - case_at_key; simpl_state; by apply Hpos.
  - assert (amount <> 0) by (by eapply Hnz).
    case_at_key; simpl_state; [lia|].
    case_at_key; simpl_state.
    + match goal with H : amount <= _ |- _ => revert H end. lia.
    + apply Hpos. unfold lot_exists. lia.
  - case_at_key; simpl_state; by apply Hpos.
Qed.

(** ** Ids that were never handed out *)

(** An id above the counter is refused as invalid. *)
Lemma unknown_id_rejected n s env :
  reachable n s -> n < UINT256_MODULUS ->
  (forall reportId sc passed,
      isVerifier s (msg_sender env) = true -> _emissionReportIds s < reportId ->
      verifyEmissionReport env reportId sc passed s = Err (Require "Invalid report ID")) /\
  (forall creditId amount,
      _carbonCreditIds s < creditId ->
      tradeCarbonCredit env creditId amount s = Err (Require "Invalid credit ID")) /\
  (forall creditId,
      _carbonCreditIds s < creditId ->
      retireCarbonCredit env creditId s = Err (Require "Invalid credit ID")) /\
  error_kind (Require "Invalid report ID") = Some NotFoundError /\
  error_kind (Require "Invalid credit ID") = Some NotFoundError.
Proof.
  intros Hr Hn. destruct (reachable_invariant n s Hr Hn) as (Hst & _).
  repeat split.
  - intros reportId sc passed Hv Hid. apply N.leb_gt in Hid.
    unfold verifyEmissionReport, onlyVerifier, validReport. step_M. simpl_state.
    rewrite Hv. cbv beta iota. by rewrite Hid.
  - intros creditId amount Hid.
    apply tradeCarbonCredit_validCredit_Err; [done|]. by apply validCredit_unknown.
  - intros creditId Hid.
    apply retireCarbonCredit_validCredit_Err. by apply validCredit_unknown.
Qed.

(** C6 (what the code does). The validity test of an id is only
    [id <= counter]. The counters start at 0 and the first id handed out is 1,
    so the id 0, which is never handed out, passes the test: right after
    deployment a verifier can verify "report 0", anybody can trade "lot 0" (an
    empty lot, for nothing) and then, as its owner, retire it. *)
Theorem C6_id_zero_accepted :
  let verify := verifyEmissionReport (eoa_env deployer 0 dec_20_2025) 0 50 true genesis in
  let trade := tradeCarbonCredit (eoa_env alice 0 dec_20_2025) 0 0 genesis in
  _emissionReportIds genesis = 0 /\ _carbonCreditIds genesis = 0 /\
  ~ fails_with verify NotFoundError /\
  ~ fails_with trade NotFoundError /\
  (exists s' l,
      verify = Ok (tt, s', l) /\ EmissionReport.verified (report s' 0) = true) /\
  (exists s' l,
      trade = Ok (tt, s', l) /\ CarbonCredit.owner (credit s' 0) = alice /\
      exists s'' l',
        retireCarbonCredit (eoa_env alice 0 dec_20_2025) 0 s' = Ok (tt, s'', l') /\
        CarbonCredit.retired (credit s'' 0) = true).
Proof.
  cbv zeta. split; [reflexivity|]. split; [reflexivity|].
  split; [vm_compute; tauto|]. split; [vm_compute; tauto|]. split.
  - eexists. eexists. split; vm_compute; reflexivity.
  - eexists. eexists. split; [vm_compute; reflexivity|].
    split; [vm_compute; reflexivity|].
    eexists. eexists. split; vm_compute; reflexivity.
Qed.

(** ** Vintage *)

(** When [mintCarbonCredit] returns and when it does not, in terms of the
    year the code computes. *)
Lemma mintCarbonCredit_vintage env amount pricePerTon cert details vintage creditType s :
  block_timestamp env < UINT256_MODULUS ->
  let call := mintCarbonCredit env amount pricePerTon cert details vintage creditType s in
  ((exists r s' l, call = Ok (r, s', l)) <->
     0 < amount /\ 2020 <= vintage <= code_year (block_timestamp env)) /\
  (~ 2020 <= vintage <= code_year (block_timestamp env) -> fails_with call ValidationError).
Proof.
  intros Hts call.
  assert (Hfit : block_timestamp env / DAYS_365 + 1970 < UINT256_MODULUS).
  { pose proof (N.Div0.mul_div_le (block_timestamp env) DAYS_365) as Hq.
    set (q := block_timestamp env / DAYS_365) in *.
    assert (HD : DAYS_365 = 31536000) by reflexivity. rewrite HD in Hq.
    assert (4000 < UINT256_MODULUS) by (vm_compute; reflexivity). lia. }
  subst call. unfold mintCarbonCredit, vintage_ok, push_ownedCredits, code_year.
  destruct (N.ltb_spec 0 amount) as [Ha|Ha].
  2: { split.
       - split; [intros (r & s' & l & Hc); discriminate | lia].
       - intros _. reflexivity. }
  step_M. destruct (N.leb_spec 2020 vintage) as [Hlo|Hlo]; cbv beta iota.
  2: { split.
       - split; [intros (r & s' & l & Hc); discriminate | lia].
       - intros _. reflexivity. }
  rewrite checked_add_fits by done. cbv beta iota.
  destruct (N.leb_spec vintage (block_timestamp env / DAYS_365 + 1970)) as [Hhi|Hhi];
    cbv beta iota.
  - split; [split; [done | eauto] | lia].
  - split.
    + split; [intros (r & s' & l & Hc); discriminate | lia].
    + intros _. reflexivity.
Qed.

(** [year_from] finds the year: the day falls after the [k] years that
    precede it and within the year that follows them. *)
Lemma year_from_spec fuel : forall y d,
  d < 365 * N.of_nat fuel ->
  exists k, year_from fuel y d = y + N.of_nat k /\
            days_upto k y <= d < days_upto (S k) y.
Proof.
  induction fuel as [|fuel IH]; intros y d Hd; [lia|].
  cbn [year_from]. destruct (N.ltb_spec d (days_in_year y)) as [Hlt|Hge].
  - exists 0%nat. cbn [days_upto]. split; lia.
  - assert (H365 : 365 <= days_in_year y) by (unfold days_in_year; destruct (is_leap y); lia).
    destruct (IH (y + 1) (d - days_in_year y)) as (k & Hy & Hk); [lia|].
    exists (S k). rewrite Hy.
    change (days_upto (S k) y) with (days_in_year y + days_upto k (y + 1)).
    change (days_upto (S (S k)) y) with (days_in_year y + days_upto (S k) (y + 1)).
    split; lia.
Qed.

Lemma calendar_year_spec timestamp :
  exists k, calendar_year timestamp = 1970 + N.of_nat k /\
            days_upto k 1970 <= timestamp / 86400 < days_upto (S k) 1970.
Proof.
  unfold calendar_year. apply year_from_spec.
  assert (H365 : 365 <> 0) by lia.
  pose proof (N.mul_succ_div_gt (timestamp / 86400) 365 H365). lia.
Qed.

(** The calendar year, on a few days. *)
Example calendar_year_examples :
  calendar_year 0 = 1970 /\
  calendar_year 951782400 = 2000 /\
  calendar_year 1735689599 = 2024 /\
  calendar_year 1735689600 = 2025 /\
  calendar_year 1767225599 = 2025 /\
  calendar_year 1767225600 = 2026.
Proof. repeat split; vm_compute; reflexivity. Qed.

(** C8 (what the code does). The bound of the vintage test is
    [block.timestamp / 365 days + 1970]. Years of 365 days run ahead of the
    calendar by one day for every leap year since 1970: on 2025-12-20 the code
    already takes the year to be 2026, and mints a lot of vintage 2026, a year
    that is after the current calendar year. *)
Theorem C8_vintage_next_year_accepted :
  let call :=
    mintCarbonCredit (eoa_env alice 0 dec_20_2025) 100 10 "cert" "project" 2026
      CARBON_CAPTURE genesis in
  calendar_year dec_20_2025 = 2025 /\
  code_year dec_20_2025 = 2026 /\
  ~ fails_with call ValidationError /\
  exists s' l, call = Ok (1, s', l) /\ CarbonCredit.vintage (credit s' 1) = 2026.
Proof.
  cbv zeta. split; [vm_compute; reflexivity|]. split; [vm_compute; reflexivity|].
  split; [vm_compute; tauto|].
  eexists. eexists. split; vm_compute; reflexivity.
Qed.

(** * Further properties of the ledger *)

(** ** The owners' index as a list *)

Lemma first_index_Some x l i : first_index x l = Some i -> l !! i = Some x.
Proof.
  revert i. induction l as [|y l IH]; intros i; cbn [first_index]; [done|].
  destruct (N.eqb_spec y x) as [->|Hne]; [by intros [= <-]|].
  destruct (first_index x l) as [j|]; [|done]. intros [= <-]. by apply IH.
Qed.

Lemma first_index_None x l : first_index x l = None <-> x ∉ l.
Proof.
  induction l as [|y l IH]; cbn [first_index].
  - split; [intros _; apply not_elem_of_nil | done].
  - rewrite not_elem_of_cons. destruct (N.eqb_spec y x) as [->|Hne].
    + split; [done | intros [? _]; done].
    + destruct (first_index x l) as [j|]; cbn.
      * split; [done|]. intros [_ Hx]. by apply IH in Hx.
      * split; [|done]. intros _. split; [congruence | by apply IH].
Qed.

Lemma swap_pop_perm x l i : l !! i = Some x -> x :: swap_pop i l ≡ₚ l.
Proof.
  intros Hi. apply list_elem_of_split_length in Hi as (l1 & l2 & -> & ->).
  unfold swap_pop. destruct (decide (l2 = [])) as [->|Hne].
  - rewrite last_snoc. cbn [default].
    replace (length l1) with (length l1 + 0)%nat by lia.
    rewrite insert_app_r. cbn. rewrite removelast_last. solve_Permutation.
  - destruct (exists_last Hne) as (l2' & y & ->).
    replace (l1 ++ x :: l2' ++ [y]) with ((l1 ++ x :: l2') ++ [y]) by (by rewrite <- app_assoc).
    rewrite last_snoc. cbn [default]. rewrite <- app_assoc. cbn [app].
    replace (length l1) with (length l1 + 0)%nat by lia.
    rewrite insert_app_r. cbn.
    replace (l1 ++ y :: l2' ++ [y]) with ((l1 ++ y :: l2') ++ [y]) by (by rewrite <- app_assoc).
    rewrite removelast_last. solve_Permutation.
Qed.

Lemma tradeCarbonCredit_full_index env id a s u s' l :
  tradeCarbonCredit env id a s = Ok (u, s', l) ->
  a = CarbonCredit.amount (credit s id) ->
  let prev := CarbonCredit.owner (credit s id) in
  creditsOf s' (msg_sender env) = creditsOf s (msg_sender env) ++ [id] /\
  creditsOf s' prev =
    match first_index id (creditsOf s prev) with
    | Some i => swap_pop i (creditsOf s prev)
    | None => creditsOf s prev
    end /\
  (forall b, b <> msg_sender env -> b <> prev -> creditsOf s' b = creditsOf s b).
Proof.
  unfold tradeCarbonCredit, nonReentrant, validCredit, update_credit, push_ownedCredits,
    _removeFromOwnedCredits. intros Hc Ha.
  inv_M; simpl_state; rewrite ?at_key_insert_eq in *; simpl_state; bool_hyps; try done.
  all: destruct (first_index _ _) as [i|]; simpl_state.
  all: rewrite ?at_key_insert_eq.
  all: repeat split; intros; rewrite ?at_key_insert_ne by done; rewrite ?at_key_insert_eq; done.
Qed.

(** The id stored in a lot that a call may touch is its key. *)
Lemma credit_id_key s i :
  credits_indexed s -> i <= _carbonCreditIds s -> CarbonCredit.id (credit s i) = i.
Proof.
  intros (Hid & Hsome & _) Hi. unfold credit, at_key.
  destruct (carbonCredits s !! i) as [c|] eqn:Hc; cbn.
  - by apply Hid.
  - destruct (decide (i = 0)) as [->|Hne]; [done|].
    destruct (Hsome i) as [c Hc']; [lia | congruence].
Qed.

(** A write to a lot in place that keeps its id and its owner. *)
Lemma credits_indexed_update s s' id f :
  credits_indexed s -> id <= _carbonCreditIds s ->
  (forall c, CarbonCredit.id (f c) = CarbonCredit.id c /\
             CarbonCredit.owner (f c) = CarbonCredit.owner c) ->
  carbonCredits s' = <[id := f (credit s id)]> (carbonCredits s) ->
  ownedCredits s' = ownedCredits s ->
  _carbonCreditIds s' = _carbonCreditIds s ->
  credits_indexed s'.
Proof.
  intros Hbooks Hle Hf Hc Ho Hn. pose proof (credit_id_key s id Hbooks Hle) as Hkey.
  destruct Hbooks as (Hid & Hsome & Hnd & Hown & Hidx).
  assert (Howner : forall i, CarbonCredit.owner (credit s' i) = CarbonCredit.owner (credit s i)).
  { intros i. unfold credit. rewrite Hc. destruct (decide (id = i)) as [->|Hne].
    - rewrite at_key_insert_eq. apply Hf.
    - by rewrite at_key_insert_ne. }
  unfold credits_indexed, creditsOf. rewrite Ho, Hn.
  split; [|split; [|split; [|split]]].
  - intros i c. rewrite Hc. intros [[<- <-]|[_ H]]%lookup_insert_Some; [|by apply Hid].
    destruct (Hf (credit s id)) as [-> _]. done.
  - intros i Hi. rewrite Hc. destruct (decide (id = i)) as [->|Hne].
    + rewrite lookup_insert_eq. eauto.
    + rewrite lookup_insert_ne by done. by apply Hsome.
  - apply Hnd.
  - intros a i Hi. rewrite Howner. by apply Hown.
  - intros i Hi. rewrite Howner. by apply Hidx.
Qed.

(** A new lot under the next id, pushed on the index of its owner. *)
Lemma credits_indexed_new s s' a c :
  credits_indexed s ->
  let k := _carbonCreditIds s + 1 in
  carbonCredits s' = <[k := c]> (carbonCredits s) ->
  CarbonCredit.id c = k -> CarbonCredit.owner c = a ->
  ownedCredits s' = <[a := creditsOf s a ++ [k]]> (ownedCredits s) ->
  _carbonCreditIds s' = k ->
  credits_indexed s'.
Proof.
  intros (Hid & Hsome & Hnd & Hown & Hidx) k Hc Hk Ha Ho Hn.
  assert (Hfresh : forall b, k ∉ creditsOf s b).
  { intros b Hin. apply Hown in Hin as [_ Hin]. lia. }
  assert (Hcredit : forall i, i <> k -> credit s' i = credit s i).
  { intros i Hi. unfold credit. rewrite Hc. by rewrite at_key_insert_ne. }
  assert (Hnew : credit s' k = c).
  { unfold credit. rewrite Hc. by rewrite at_key_insert_eq. }
  assert (Hlist : forall b, creditsOf s' b = if decide (a = b) then creditsOf s a ++ [k]
                                             else creditsOf s b).
  { intros b. unfold creditsOf at 1. rewrite Ho. case_decide as Hab.
    - subst b. by rewrite at_key_insert_eq.
    - by rewrite at_key_insert_ne. }
  unfold credits_indexed. rewrite Hn. split; [|split; [|split; [|split]]].
  - intros i c'. rewrite Hc. intros [[<- <-]|[_ H]]%lookup_insert_Some; [done|].
    apply Hid in H as [? H]. split; [done | lia].
  - intros i Hi. rewrite Hc. destruct (decide (k = i)) as [<-|Hne].
    + rewrite lookup_insert_eq. eauto.
    + rewrite lookup_insert_ne by done. apply Hsome. lia.
  - intros b. rewrite Hlist. case_decide; [|apply Hnd].
    apply NoDup_app. split; [apply Hnd|]. split; [|apply NoDup_singleton].
    intros i Hi Hi'. apply list_elem_of_singleton in Hi'. subst i. by apply (Hfresh a).
  - intros b i. rewrite Hlist. case_decide as Hab.
    + subst b. intros [H|H]%elem_of_app.
      * rewrite Hcredit by (intros ->; by apply (Hfresh a)).
        apply Hown in H as [? H]. split; [done | lia].
      * apply list_elem_of_singleton in H. subst i. rewrite Hnew. split; [done | lia].
    + intros H. rewrite Hcredit by (intros ->; by apply (Hfresh b)).
      apply Hown in H as [? H]. split; [done | lia].
  - intros i Hi. rewrite Hlist. destruct (decide (i = k)) as [->|Hne].
    + rewrite Hnew, Ha. rewrite decide_True by done. apply elem_of_app. right.
      by apply list_elem_of_singleton.
    + rewrite Hcredit by done. case_decide as Hab.
      * apply elem_of_app. left. rewrite Hab. apply Hidx. lia.
      * apply Hidx. lia.
Qed.

(** What the loop of [_removeFromOwnedCredits] leaves of a duplicate-free
    index: the same ids, without the one removed. *)
Lemma remove_from_index creditId credits :
  NoDup credits ->
  let credits' :=
    match first_index creditId credits with
    | Some i => swap_pop i credits
    | None => credits
    end in
  NoDup credits' /\ (creditId ∉ credits') /\
  (forall j, j <> creditId -> (j ∈ credits' <-> j ∈ credits)).
Proof.
  intros Hnd. destruct (first_index creditId credits) as [i|] eqn:Hi; cbn zeta.
  - apply first_index_Some in Hi. pose proof (swap_pop_perm _ _ _ Hi) as Hp.
    rewrite <- Hp in Hnd. apply NoDup_cons in Hnd as [Hni Hnd'].
    split; [done|]. split; [done|]. intros j Hj.
    assert (Hmem : j ∈ creditId :: swap_pop i credits <-> j ∈ credits) by (by rewrite Hp).
    rewrite <- Hmem, elem_of_cons. intuition congruence.
  - apply first_index_None in Hi. done.
Qed.

(** A full trade: the lot changes owner and moves from the index of the
    previous owner to that of the buyer. *)
Lemma credits_indexed_move s s' id buyer :
  credits_indexed s -> id <= _carbonCreditIds s ->
  let prev := CarbonCredit.owner (credit s id) in
  prev <> buyer ->
  carbonCredits s' = <[id := CarbonCredit.set_owner buyer (credit s id)]> (carbonCredits s) ->
  creditsOf s' buyer = creditsOf s buyer ++ [id] ->
  creditsOf s' prev =
    match first_index id (creditsOf s prev) with
    | Some i => swap_pop i (creditsOf s prev)
    | None => creditsOf s prev
    end ->
  (forall b, b <> buyer -> b <> prev -> creditsOf s' b = creditsOf s b) ->
  _carbonCreditIds s' = _carbonCreditIds s ->
  credits_indexed s'.
Proof.
  intros Hbooks Hle prev Hne Hc Hbuyer Hprev Hother Hn.
  pose proof (credit_id_key s id Hbooks Hle) as Hkey.
  destruct Hbooks as (Hid & Hsome & Hnd & Hown & Hidx).
  destruct (remove_from_index id (creditsOf s prev) (Hnd prev)) as (Hnd' & Hgone & Hkeep).
  rewrite <- Hprev in Hnd', Hgone, Hkeep.
  assert (Hcredit : forall i, i <> id -> credit s' i = credit s i).
  { intros i Hi. unfold credit. rewrite Hc. by rewrite at_key_insert_ne. }
  assert (Hnew : CarbonCredit.owner (credit s' id) = buyer).
  { unfold credit. rewrite Hc. by rewrite at_key_insert_eq. }
  assert (Hnotin : id ∉ creditsOf s buyer).
  { intros Hin. apply Hown in Hin as [Hin _]. by apply Hne. }
  unfold credits_indexed. rewrite Hn. split; [|split; [|split; [|split]]].
  - intros i c. rewrite Hc. intros [[<- <-]|[_ H]]%lookup_insert_Some; [done|by apply Hid].
  - intros i Hi. rewrite Hc. destruct (decide (id = i)) as [->|Hni].
    + rewrite lookup_insert_eq. eauto.
    + rewrite lookup_insert_ne by done. by apply Hsome.
  - intros b. destruct (decide (b = buyer)) as [->|Hb].
    + rewrite Hbuyer. apply NoDup_app. split; [apply Hnd|]. split; [|apply NoDup_singleton].
      intros i Hi Hi'. apply list_elem_of_singleton in Hi'. by subst i.
    + destruct (decide (b = prev)) as [->|Hb']; [done|]. rewrite Hother by done. apply Hnd.
  - intros b i. destruct (decide (b = buyer)) as [->|Hb].
    + rewrite Hbuyer. intros [H|H]%elem_of_app.
      * rewrite Hcredit by (by intros ->). by apply Hown.
      * apply list_elem_of_singleton in H. by subst i.
    + destruct (decide (b = prev)) as [->|Hb'].
      * intros H. assert (i <> id) by (by intros ->).
        rewrite Hcredit by done. apply Hown. by apply Hkeep.
      * rewrite Hother by done. intros H. pose proof (Hown _ _ H) as [Ho Hi].
        rewrite Hcredit; [done|]. intros ->. by apply Hb'.
  - intros i Hi. destruct (decide (i = id)) as [->|Hni].
    + rewrite Hnew, Hbuyer. apply elem_of_app. right. by apply list_elem_of_singleton.
    + rewrite Hcredit by done. pose proof (Hidx i Hi) as Hin.
      destruct (decide (CarbonCredit.owner (credit s i) = buyer)) as [Hb|Hb].
      * rewrite Hb in *. rewrite Hbuyer. apply elem_of_app. by left.
      * destruct (decide (CarbonCredit.owner (credit s i) = prev)) as [Hb'|Hb'].
        -- rewrite Hb' in *. by apply Hkeep.
        -- by rewrite Hother.
Qed.

Lemma credits_indexed_exec n env c s s' l :
  invariant n s -> n + 1 < UINT256_MODULUS -> credits_indexed s ->
  exec env c s = Ok (s', l) -> credits_indexed s'.
Proof.
  intros (_ & Hcc & _) Hn Hbooks He.
  pose proof He as He'. exec_inv He'; try done.
  - (* mint *)
    rewrite increment_small in * by lia.
    eapply (credits_indexed_new s _ (msg_sender env)); [done | reflexivity..].
  - (* full trade *)
    apply outcome_Ok in He as [u He].
    destruct (tradeCarbonCredit_full_index _ _ _ _ _ _ _ He) as (Hb & Hp & Ho); [done|].
    eapply (credits_indexed_move s _ creditId (msg_sender env)); try done.
  - (* split *)
    rewrite increment_small in * by lia.
    set (s1 := set_carbonCredits
                 (<[creditId := CarbonCredit.set_amount
                                  (CarbonCredit.amount (credit s creditId) - amount)
                                  (credit s creditId)]> (carbonCredits s)) s).
    assert (Hs1 : credits_indexed s1).
    { eapply (credits_indexed_update s s1 creditId); [done | done | | reflexivity..].
      intros c. by split. }
    eapply (credits_indexed_new s1 _ (msg_sender env)); [done | reflexivity..].
  - (* retirement *)
    eapply (credits_indexed_update s _ creditId); [done | done | | reflexivity..].
    intros c. by split.
Qed.

Lemma credits_indexed_constructor d : credits_indexed (constructor d).
Proof.
  unfold credits_indexed, constructor, creditsOf, credit, at_key. simpl_state.
  split; [|split; [|split; [|split]]].
  - intros i c. by rewrite lookup_empty.
  - intros i Hi. lia.
  - intros a. rewrite lookup_empty. apply NoDup_nil_2.
  - intros a i. rewrite lookup_empty. cbn. by intros ?%elem_of_nil.
  - intros i Hi. lia.
Qed.

Lemma reachable_credits_indexed n s :
  reachable n s -> n < UINT256_MODULUS -> credits_indexed s.
Proof.
  induction 1 as [d | n s env c Hr IH]; intros Hn.
  - apply credits_indexed_constructor.
  - unfold transact. destruct (exec env c s) as [[s' l]|e] eqn:He; [|apply IH; lia].
    eapply (credits_indexed_exec n); [apply reachable_invariant; [done | lia] | done | | done].
    apply IH. lia.
Qed.

Lemma reports_indexed_exec n env c s s' l :
  invariant n s -> n + 1 < UINT256_MODULUS -> reports_indexed s ->
  exec env c s = Ok (s', l) -> reports_indexed s'.
Proof.
  intros (_ & _ & Her & _) Hn (Hid & Hsome & Hnd & Hidx & Hver) He.
  exec_inv He; try done.
  - (* reportEmissions *)
    rewrite increment_small by lia. set (k := _emissionReportIds s + 1).
    assert (Hfresh : forall b, k ∉ reportsOf s b).
    { intros b Hin. apply Hidx in Hin as [Hin _]. lia. }
    unfold reports_indexed, report, reportsOf in *. simpl_state.
    split; [|split; [|split; [|split]]].
    + intros i r. intros [[<- <-]|[_ Hlk]]%lookup_insert_Some; [done|].
      apply Hid in Hlk as [? Hlk]. split; [done | lia].
    + intros i Hi. destruct (decide (k = i)) as [<-|Hne].
      * rewrite lookup_insert_eq. eauto.
      * rewrite lookup_insert_ne by done. apply Hsome. lia.
    + intros b. destruct (decide (msg_sender env = b)) as [<-|Hb].
      * rewrite at_key_insert_eq. apply NoDup_app. split; [apply Hnd|].
        split; [|apply NoDup_singleton].
        intros i Hi Hi'. apply list_elem_of_singleton in Hi'. subst i.
        by apply (Hfresh (msg_sender env)).
      * rewrite at_key_insert_ne by done. apply Hnd.
    + intros b i. destruct (decide (k = i)) as [<-|Hne].
      * rewrite at_key_insert_eq. simpl_state.
        destruct (decide (msg_sender env = b)) as [<-|Hb].
        -- rewrite at_key_insert_eq, elem_of_app, list_elem_of_singleton.
           split; [intros _; split; [lia | done] | auto].
        -- rewrite at_key_insert_ne by done. split; [|intros [_ ?]; done].
           intros Hin. by apply Hfresh in Hin.
      * rewrite (at_key_insert_ne _ _ k i) by done.
        destruct (decide (msg_sender env = b)) as [<-|Hb].
        -- rewrite at_key_insert_eq, elem_of_app, list_elem_of_singleton, Hidx.
           split; [intros [[? ?]|?]; [split; [lia | done] | congruence] |].
           intros [? ?]. left. split; [lia | done].
        -- rewrite at_key_insert_ne by done. rewrite Hidx.
           split; intros [? ?]; (split; [lia | done]).
    + intros i. destruct (decide (k = i)) as [<-|Hne].
      * rewrite at_key_insert_eq. simpl_state. split; [lia | done].
      * rewrite at_key_insert_ne by done. apply Hver.
  - (* verifyEmissionReport *)
    assert (Hkey : EmissionReport.id (report s reportId) = reportId).
    { unfold report, at_key. destruct (emissionReports s !! reportId) as [r|] eqn:Hr; cbn.
      - by apply Hid.
      - destruct (decide (reportId = 0)) as [->|Hne]; [done|].
        destruct (Hsome reportId) as [r Hr']; [lia | congruence]. }
    unfold reports_indexed, report, reportsOf in *. simpl_state.
    split; [|split; [|split; [|split]]].
    + intros i r. intros [[<- <-]|[_ Hlk]]%lookup_insert_Some; [done | by apply Hid].
    + intros i Hi. destruct (decide (reportId = i)) as [<-|Hne].
      * rewrite lookup_insert_eq. eauto.
      * rewrite lookup_insert_ne by done. by apply Hsome.
    + apply Hnd.
    + intros b i. rewrite Hidx. destruct (decide (reportId = i)) as [<-|Hne].
      * by rewrite at_key_insert_eq.
      * by rewrite at_key_insert_ne.
    + intros i. destruct (decide (reportId = i)) as [<-|Hne].
      * rewrite at_key_insert_eq. simpl_state. split; [done | discriminate].
      * rewrite at_key_insert_ne by done. apply Hver.
Qed.

Lemma reports_indexed_constructor d : reports_indexed (constructor d).
Proof.
  unfold reports_indexed, constructor, reportsOf, report, at_key. simpl_state.
  split; [|split; [|split; [|split]]].
  - intros i r. by rewrite lookup_empty.
  - intros i Hi. lia.
  - intros a. rewrite lookup_empty. apply NoDup_nil_2.
  - intros a i. rewrite !lookup_empty. cbn. rewrite elem_of_nil. split; [done | lia].
  - intros i. rewrite lookup_empty. cbn. split; [lia | done].
Qed.

Lemma reachable_reports_indexed n s :
  reachable n s -> n < UINT256_MODULUS -> reports_indexed s.
Proof.
  induction 1 as [d | n s env c Hr IH]; intros Hn.
  - apply reports_indexed_constructor.
  - unfold transact. destruct (exec env c s) as [[s' l]|e] eqn:He; [|apply IH; lia].
    eapply (reports_indexed_exec n); [apply reachable_invariant; [done | lia] | done | | done].
    apply IH. lia.
Qed.

Lemma empty_length (k : string) : String.length k = 0%nat -> k = "".
Proof. by destruct k. Qed.

(** A key that [createDigitalTwin] accepts and that is not empty is free. *)
Lemma accepted_key_free n s k :
  invariant n s -> k <> "" ->
  String.length (DigitalTwin.twinId (twin s k)) = 0%nat ->
  digitalTwins s !! k = None.
Proof.
  intros (_ & _ & _ & _ & Htw & _) Hk Hlen. unfold twin, at_key in Hlen.
  destruct (digitalTwins s !! k) as [t|] eqn:Ht; [|done]. cbn in Hlen.
  apply empty_length in Hlen. rewrite (Htw _ _ Ht) in Hlen. done.
Qed.

Lemma twins_indexed_exec n env c s s' l :
  invariant n s -> twins_indexed s -> exec env c s = Ok (s', l) -> twins_indexed s'.
Proof.
  intros Hinv (Hact & Hidx) He.
  exec_inv He; try done; unfold twins_indexed, twin, twinsOf in *; simpl_state.
  - (* createDigitalTwin *)
    split.
    + intros k t. intros [[<- <-]|[_ Hlk]]%lookup_insert_Some; [done | by apply (Hact k)].
    + intros a k Hk. destruct (decide (twinId = k)) as [->|Hne].
      * assert (Hfree : digitalTwins s !! k = None) by (by eapply accepted_key_free).
        rewrite lookup_insert_eq.
        assert (Hnot : forall b, k ∉ at_key [] (companyTwins s) b).
        { intros b Hin. apply Hidx in Hin as (t & Ht & _); [congruence | done]. }
        destruct (decide (msg_sender env = a)) as [<-|Ha].
        -- rewrite at_key_insert_eq, elem_of_app, list_elem_of_singleton.
           split; [eauto | auto].
        -- rewrite at_key_insert_ne by done. split; [intros Hin; by apply Hnot in Hin|].
           intros (t & [= <-] & Ht). done.
      * rewrite lookup_insert_ne by done. rewrite <- Hidx by done.
        destruct (decide (msg_sender env = a)) as [<-|Ha].
        -- rewrite at_key_insert_eq, elem_of_app, list_elem_of_singleton.
           split; [intros [?|?]; [done | congruence] | auto].
        -- by rewrite at_key_insert_ne.
  - (* updateDigitalTwin *)
    assert (Hstored : exists t, digitalTwins s !! twinId = Some t) .
    { unfold at_key in *. destruct (digitalTwins s !! twinId) as [t|]; [eauto | done]. }
    destruct Hstored as [t Ht]. rewrite (at_key_Some _ _ _ _ Ht) in *. split.
    + intros k t'. intros [[<- <-]|[_ Hlk]]%lookup_insert_Some; [done | by apply (Hact k)].
    + intros a k Hk. rewrite Hidx by done. destruct (decide (twinId = k)) as [->|Hne].
      * rewrite lookup_insert_eq, Ht. split; intros (t' & [= <-] & Ho); eauto.
      * by rewrite lookup_insert_ne.
Qed.

Lemma twins_indexed_constructor d : twins_indexed (constructor d).
Proof.
  unfold twins_indexed, constructor, twinsOf, at_key. simpl_state. split.
  - intros k t. by rewrite lookup_empty.
  - intros a k Hk. rewrite !lookup_empty. cbn. rewrite elem_of_nil.
    split; [done | by intros (t & ? & _)].
Qed.

Lemma reachable_twins_indexed n s :
  reachable n s -> n < UINT256_MODULUS -> twins_indexed s.
Proof.
  induction 1 as [d | n s env c Hr IH]; intros Hn.
  - apply twins_indexed_constructor.
  - unfold transact. destruct (exec env c s) as [[s' l]|e] eqn:He; [|apply IH; lia].
    eapply (twins_indexed_exec n); [apply reachable_invariant; [done | lia] | | done].
    apply IH. lia.
Qed.

(** The identity of a twin under a key that is not empty is settled at its
    creation. *)
Lemma twin_identity_transact k t n env c s :
  invariant n s -> n + 1 < UINT256_MODULUS -> k <> "" ->
  (exists t', digitalTwins s !! k = Some t' /\ twin_identity t' = twin_identity t) ->
  exists t', digitalTwins (transact env c s) !! k = Some t' /\
             twin_identity t' = twin_identity t.
Proof.
  intros Hinv Hn Hk (t0 & Ht0 & Hsame). unfold transact.
  destruct (exec env c s) as [[s' l]|e] eqn:He; [|eauto].
  exec_inv He; simpl_state; eauto.
  - destruct (decide (twinId = k)) as [->|Hne].
    + assert (digitalTwins s !! k = None) by (by eapply accepted_key_free). congruence.
    + rewrite lookup_insert_ne by done. eauto.
  - destruct (decide (twinId = k)) as [->|Hne].
    + rewrite lookup_insert_eq. unfold twin. rewrite (at_key_Some _ _ _ _ Ht0).
      eexists. split; [reflexivity|]. by rewrite <- Hsame.
    + rewrite lookup_insert_ne by done. eauto.
Qed.

(** Evaluation of an entry point under known outcomes of its tests. *)
Ltac reduce_M := repeat (progress (cbv beta iota; simpl_state; cbn [negb])).

Ltac eval_tests :=
  reduce_M;
  repeat (match goal with
          | H : _ = true |- _ => rewrite H
          | H : _ = false |- _ => rewrite H
          end; reduce_M).

Ltac unfold_trade :=
  unfold tradeCarbonCredit, nonReentrant, validCredit, update_credit, push_ownedCredits,
    _removeFromOwnedCredits, checked_mul, checked_sub, transfer;
  step_M; simpl_state.

Lemma not_entered s :
  _status s = _NOT_ENTERED -> negb (_status s =? _ENTERED) = true.
Proof. by intros ->. Qed.

(** X12. The tests of [tradeCarbonCredit] come in a fixed order, and the
    first that fails decides the error: unknown id, retired lot, amount above
    the lot's, overflow of the price, payment below the price, caller is the
    owner, seller refuses the payment, buyer refuses the refund.  When none
    fails the trade returns. *)
Theorem trade_tests_in_order env creditId amount s :
  _status s = _NOT_ENTERED ->
  let c := credit s creditId in
  let due := CarbonCredit.pricePerTon c * amount in
  let call := tradeCarbonCredit env creditId amount s in
  (_carbonCreditIds s < creditId -> call = Err (Require "Invalid credit ID")) /\
  (creditId <= _carbonCreditIds s ->
     (CarbonCredit.retired c = true -> call = Err (Require "Credit already retired")) /\
     (CarbonCredit.retired c = false ->
        (CarbonCredit.amount c < amount ->
           call = Err (Require "Insufficient credit amount")) /\
        (amount <= CarbonCredit.amount c ->
           (UINT256_MODULUS <= due -> call = Err (Panic 17)) /\
           (due < UINT256_MODULUS ->
              (msg_value env < due -> call = Err (Require "Insufficient payment")) /\
              (due <= msg_value env ->
                 (CarbonCredit.owner c = msg_sender env ->
                    call = Err (Require "Cannot trade own credit")) /\
                 (CarbonCredit.owner c <> msg_sender env ->
                    (can_receive env (CarbonCredit.owner c) = false ->
                       call = Err TransferFailed) /\
                    (can_receive env (CarbonCredit.owner c) = true ->
                       (due < msg_value env -> can_receive env (msg_sender env) = false ->
                          call = Err TransferFailed) /\
                       ((due < msg_value env -> can_receive env (msg_sender env) = true) ->
                          exists s' l, call = Ok (tt, s', l))))))))).
Proof.
  intros Hst%not_entered c due call. subst c due call.
  split; [intros Hid%N.leb_gt; unfold_trade; by eval_tests|].
  intros Hid%N.leb_le.
  split; [intros Hret; unfold_trade; by eval_tests|]. intros Hret.
  split; [intros Ha%N.leb_gt; unfold_trade; by eval_tests|]. intros Ha. pose proof Ha as Ha'%N.leb_le.
  split; [intros Hov%N.ltb_ge; unfold_trade; by eval_tests|]. intros Hov%N.ltb_lt.
  split; [intros Hpay%N.leb_gt; unfold_trade; by eval_tests|].
  intros Hpay. pose proof Hpay as Hpay'%N.leb_le.
  split; [intros Hown%N.eqb_eq; unfold_trade; by eval_tests|]. intros Hown%N.eqb_neq.
  split; [intros Hrec; unfold_trade; by eval_tests|]. intros Hrec.
  split.
  - intros Hlt%N.ltb_lt Hrec'. unfold_trade. eval_tests.
    destruct (amount =? _) eqn:Heq; by eval_tests.
  - intros Hrefund. unfold_trade. eval_tests.
    destruct (N.ltb_spec (CarbonCredit.pricePerTon (at_key CarbonCredit.zero (carbonCredits s) creditId) * amount)
                (msg_value env)) as [Hlt|Hge].
    + specialize (Hrefund Hlt). destruct (amount =? _) eqn:Heq; eval_tests; eauto.
    + destruct (amount =? _) eqn:Heq; eval_tests; eauto.
Qed.

(** ** What the entry points do and keep *)

(** X1. Authorization gate of verification: a caller that is not in the
    verifier set is refused before anything else is looked at, whatever the
    report id and the score, and the storage is left as it was. *)
Theorem verification_needs_verifier env reportId sc passed s :
  isVerifier s (msg_sender env) = false ->
  verifyEmissionReport env reportId sc passed s
    = Err (Require "Not an authorized verifier") /\
  fails_with (verifyEmissionReport env reportId sc passed s) AuthorizationError /\
  transact env (VerifyEmissionReport reportId sc passed) s = s.
Proof.
  intros Hv.
  assert (He : verifyEmissionReport env reportId sc passed s
               = Err (Require "Not an authorized verifier")).
  { unfold verifyEmissionReport, onlyVerifier. step_M. simpl_state. by rewrite Hv. }
  rewrite He. split; [done|]. split; [done|].
  by apply (transact_nonpayable_Err env (VerifyEmissionReport reportId sc passed)
              (verifyEmissionReport env reportId sc passed) s _ eq_refl He).
Qed.

Lemma verification_needs_verifier_witness :
  let env := eoa_env alice 0 dec_20_2025 in
  verifyEmissionReport env 1 90 true reported = Err (Require "Not an authorized verifier") /\
  fails_with (verifyEmissionReport env 1 90 true reported) AuthorizationError /\
  transact env (VerifyEmissionReport 1 90 true) reported = reported.
Proof.
  apply (verification_needs_verifier (eoa_env alice 0 dec_20_2025) 1 90 true reported).
  vm_compute. reflexivity.
Defined.

Lemma counters_transact n env c s :
  invariant n s -> n + 1 < UINT256_MODULUS ->
  _emissionReportIds s <= _emissionReportIds (transact env c s) <= _emissionReportIds s + 1 /\
  _carbonCreditIds s <= _carbonCreditIds (transact env c s) <= _carbonCreditIds s + 1.
Proof.
  intros (_ & Hcc & Her & _) Hn. unfold transact.
  destruct (exec env c s) as [[s' l]|e] eqn:He; [|lia].
  exec_inv He; simpl_state; rewrite ?increment_small by lia; lia.
Qed.

(** X2. Ids only go up: over any sequence of transactions neither counter
    decreases, and each transaction hands out at most one id of each kind; a
    transaction that reverts hands out none.  (Fewer than [2^256]
    transactions.) *)
Theorem ids_monotone n s txs :
  reachable n s ->
  n + N.of_nat (length txs) < UINT256_MODULUS ->
  _emissionReportIds s <= getTotalReports (run s txs)
    <= _emissionReportIds s + N.of_nat (length txs) /\
  _carbonCreditIds s <= getTotalCredits (run s txs)
    <= _carbonCreditIds s + N.of_nat (length txs).
Proof.
  intros Hr Hn. assert (Hinv : invariant n s) by (apply reachable_invariant; [done | lia]).
  clear Hr. revert n s Hinv Hn. unfold getTotalReports, getTotalCredits, Counters.current.
  induction txs as [|[env c] txs IH]; intros n s Hinv Hn; cbn [run length] in *; [lia|].
  destruct (counters_transact n env c s Hinv) as (Hr1 & Hc1); [lia|].
  destruct (IH (n + 1) (transact env c s)) as (Hr2 & Hc2);
    [apply invariant_transact; [done | lia] | lia | lia].
Qed.

Lemma ids_monotone_witness :
  _emissionReportIds minted <= getTotalReports (run minted market)
    <= _emissionReportIds minted + N.of_nat (length market) /\
  _carbonCreditIds minted <= getTotalCredits (run minted market)
    <= _carbonCreditIds minted + N.of_nat (length market).
Proof.
  apply (ids_monotone 1 minted market); [apply reachable_minted | vm_compute; reflexivity].
Defined.

(** X3. The lots on record are those the counter has handed out: every id
    from 1 to the counter has a stored lot that carries this id, and nothing
    is stored above the counter.  (Fewer than [2^256] transactions.) *)
Theorem stored_lots n s :
  reachable n s -> n < UINT256_MODULUS ->
  (forall i, lot_exists s i ->
     exists c, carbonCredits s !! i = Some c /\ CarbonCredit.id c = i) /\
  (forall i, getTotalCredits s < i -> carbonCredits s !! i = None).
Proof.
  intros Hr Hn. destruct (reachable_credits_indexed n s Hr Hn) as (Hid & Hsome & _).
  split.
  - intros i Hi. destruct (Hsome i Hi) as [c Hc]. exists c. split; [done | by apply Hid].
  - intros i Hi. unfold getTotalCredits, Counters.current in Hi.
    destruct (carbonCredits s !! i) as [c|] eqn:Hc; [|done].
    apply Hid in Hc as [_ Hc]. lia.
Qed.

Lemma stored_lots_witness :
  (forall i, lot_exists partly_traded i ->
     exists c, carbonCredits partly_traded !! i = Some c /\ CarbonCredit.id c = i) /\
  (forall i, getTotalCredits partly_traded < i -> carbonCredits partly_traded !! i = None).
Proof.
  apply (stored_lots 2 partly_traded).
  - apply (reach_tx 1), reachable_minted.
  - vm_compute. reflexivity.
Defined.

(** X4. The same for the reports: every id from 1 to the counter has a
    stored report that carries this id, and nothing is stored above the
    counter, so a new report never replaces one on record. *)
Theorem stored_reports n s :
  reachable n s -> n < UINT256_MODULUS ->
  (forall i, 1 <= i <= getTotalReports s ->
     exists r, emissionReports s !! i = Some r /\ EmissionReport.id r = i) /\
  (forall i, getTotalReports s < i -> emissionReports s !! i = None).
Proof.
  intros Hr Hn. destruct (reachable_reports_indexed n s Hr Hn) as (Hid & Hsome & _).
  unfold getTotalReports, Counters.current. split.
  - intros i Hi. destruct (Hsome i Hi) as [r Hr']. exists r. split; [done | by apply Hid].
  - intros i Hi. destruct (emissionReports s !! i) as [r|] eqn:Hr'; [|done].
    apply Hid in Hr' as [_ Hr']. lia.
Qed.

Lemma stored_reports_witness :
  (forall i, 1 <= i <= getTotalReports verified_once ->
     exists r, emissionReports verified_once !! i = Some r /\ EmissionReport.id r = i) /\
  (forall i, getTotalReports verified_once < i -> emissionReports verified_once !! i = None).
Proof.
  apply (stored_reports 2 verified_once).
  - apply (reach_tx 1), reachable_reported.
  - vm_compute. reflexivity.
Defined.

(** X5. Single ownership: the index [ownedCredits] of an address lists only
    lots whose owner is this address, each once; so no id is on the index of
    two addresses, and every lot handed out is on the index of its owner. *)
Theorem owned_credits_index n s :
  reachable n s -> n < UINT256_MODULUS ->
  forall a i,
    NoDup (getOwnedCredits s a) /\
    (i ∈ getOwnedCredits s a ->
       CarbonCredit.owner (credit s i) = a /\
       forall b, i ∈ getOwnedCredits s b -> b = a) /\
    (lot_exists s i -> i ∈ getOwnedCredits s (CarbonCredit.owner (credit s i))).
Proof.
  intros Hr Hn a i.
  destruct (reachable_credits_indexed n s Hr Hn) as (_ & _ & Hnd & Hown & Hidx).
  unfold getOwnedCredits. split; [apply Hnd|]. split.
  - intros Hi. destruct (Hown a i Hi) as [Ha _]. split; [done|].
    intros b Hb. destruct (Hown b i Hb) as [Hb' _]. congruence.
  - apply Hidx.
Qed.

Lemma owned_credits_index_witness :
  NoDup (getOwnedCredits (run minted market) bob) /\
  (2 ∈ getOwnedCredits (run minted market) bob ->
     CarbonCredit.owner (credit (run minted market) 2) = bob /\
     forall b, 2 ∈ getOwnedCredits (run minted market) b -> b = bob) /\
  (lot_exists (run minted market) 2 ->
     2 ∈ getOwnedCredits (run minted market)
           (CarbonCredit.owner (credit (run minted market) 2))).
Proof.
  apply (fun Hr Hn => owned_credits_index 7 (run minted market) Hr Hn bob 2).
  - apply (reachable_run 1 minted market), reachable_minted.
  - vm_compute. reflexivity.
Defined.

(** X6. The index [companyReports] is exact: an id is on the index of an
    address exactly when it is the id of a report this address filed, and it
    is there once. *)
Theorem company_reports_index n s :
  reachable n s -> n < UINT256_MODULUS ->
  forall a i,
    NoDup (getCompanyReports s a) /\
    (i ∈ getCompanyReports s a <->
       1 <= i <= getTotalReports s /\ EmissionReport.company (report s i) = a).
Proof.
  intros Hr Hn a i.
  destruct (reachable_reports_indexed n s Hr Hn) as (_ & _ & Hnd & Hidx & _).
  unfold getCompanyReports, getTotalReports, Counters.current. split; [apply Hnd | apply Hidx].
Qed.

Lemma company_reports_index_witness :
  NoDup (getCompanyReports (run verified_once later) alice) /\
  (1 ∈ getCompanyReports (run verified_once later) alice <->
     1 <= 1 <= getTotalReports (run verified_once later) /\
     EmissionReport.company (report (run verified_once later) 1) = alice).
Proof.
  apply (fun Hr Hn => company_reports_index 4 (run verified_once later) Hr Hn alice 1).
  - apply (reachable_run 2 verified_once later), (reach_tx 1), reachable_reported.
  - vm_compute. reflexivity.
Defined.

(** X7. Verification data: the stored verification score of a report is at
    most 100, and a report that is not verified has score 0 and no verifier. *)
Theorem verification_data n s reportId :
  reachable n s -> n < UINT256_MODULUS ->
  EmissionReport.verificationScore (report s reportId) <= 100 /\
  (EmissionReport.verified (report s reportId) = false ->
     EmissionReport.verificationScore (report s reportId) = 0 /\
     EmissionReport.verifier (report s reportId) = 0).
Proof.
  intros Hr Hn. destruct (reachable_reports_indexed n s Hr Hn) as (_ & _ & _ & _ & Hver).
  apply Hver.
Qed.

Lemma verification_data_witness :
  EmissionReport.verificationScore (report verified_once 1) <= 100 /\
  (EmissionReport.verified (report verified_once 1) = false ->
     EmissionReport.verificationScore (report verified_once 1) = 0 /\
     EmissionReport.verifier (report verified_once 1) = 0).
Proof.
  apply (verification_data 2 verified_once 1).
  - apply (reach_tx 1), reachable_reported.
  - vm_compute. reflexivity.
Defined.

(** X8. The sustainability score of every address stays within 0..100. *)
Theorem company_score_bounded n s a :
  reachable n s -> n < UINT256_MODULUS -> score s a <= 100.
Proof.
  intros Hr Hn. destruct (reachable_invariant n s Hr Hn) as (_ & _ & _ & _ & _ & Hsc).
  apply Hsc.
Qed.

Lemma company_score_bounded_witness : score verified_once alice <= 100.
Proof.
  apply (company_score_bounded 2 verified_once alice).
  - apply (reach_tx 1), reachable_reported.
  - vm_compute. reflexivity.
Defined.

(** X9. A stored twin is always active, so its owner can always update it:
    the call returns, sets the current emissions and the time of the update,
    and touches nothing else. *)
Theorem owner_updates_twin n env twinId newEmissions s t :
  reachable n s -> n < UINT256_MODULUS ->
  digitalTwins s !! twinId = Some t ->
  DigitalTwin.owner t = msg_sender env ->
  DigitalTwin.active t = true /\
  updateDigitalTwin env twinId newEmissions s
    = Ok (tt,
          set_digitalTwins
            (<[twinId := DigitalTwin.mk (DigitalTwin.twinId t) (DigitalTwin.owner t)
                           (DigitalTwin.facilityType t) (DigitalTwin.baselineEmissions t)
                           newEmissions (block_timestamp env) true (DigitalTwin.dataHash t)]>
               (digitalTwins s)) s,
          [Emitted (DigitalTwinUpdated twinId newEmissions (block_timestamp env))]).
Proof.
  intros Hr Hn Ht Hown. destruct (reachable_twins_indexed n s Hr Hn) as (Hact & _).
  pose proof (Hact _ _ Ht) as Ha. split; [done|].
  assert (Hok : exists s' l, updateDigitalTwin env twinId newEmissions s = Ok (tt, s', l)).
  { apply N.eqb_eq in Hown. unfold updateDigitalTwin, update_twin. step_M. unfold twin.
    rewrite (at_key_Some _ _ _ _ Ht). eval_tests. eauto. }
  destruct Hok as (s' & l & Hok). rewrite Hok.
  apply updateDigitalTwin_Ok in Hok as (_ & _ & -> & ->).
  unfold twin. rewrite (at_key_Some _ _ _ _ Ht).
  destruct t; cbn in Ha; subst; reflexivity.
Qed.

Lemma owner_updates_twin_witness :
  let env := eoa_env alice 0 dec_20_2025 in
  let t := DigitalTwin.mk "plant" alice "factory" 100 100 dec_20_2025 true "h" in
  DigitalTwin.active t = true /\
  updateDigitalTwin env "plant" 80 plant_twin
    = Ok (tt,
          set_digitalTwins
            (<["plant" := DigitalTwin.mk (DigitalTwin.twinId t) (DigitalTwin.owner t)
                           (DigitalTwin.facilityType t) (DigitalTwin.baselineEmissions t)
                           80 (block_timestamp env) true (DigitalTwin.dataHash t)]>
               (digitalTwins plant_twin)) plant_twin,
          [Emitted (DigitalTwinUpdated "plant" 80 (block_timestamp env))]).
Proof.
  apply (owner_updates_twin 1 (eoa_env alice 0 dec_20_2025) "plant" 80 plant_twin).
  - apply (reach_tx 0), reachable_genesis.
  - vm_compute. reflexivity.
  - vm_compute. reflexivity.
  - vm_compute. reflexivity.
Defined.

(** X10. The identity of a twin is settled at its creation: under a key that
    is not empty, the key, the owner, the facility type, the baseline and the
    data hash of a stored twin are the same after any sequence of
    transactions. *)
Theorem twin_identity_kept n s twinId t txs :
  reachable n s ->
  n + N.of_nat (length txs) < UINT256_MODULUS ->
  twinId <> "" ->
  digitalTwins s !! twinId = Some t ->
  exists t', digitalTwins (run s txs) !! twinId = Some t' /\
             twin_identity t' = twin_identity t.
Proof.
  intros Hr Hn Hk Ht.
  apply (run_stable
           (fun s => exists t', digitalTwins s !! twinId = Some t' /\
                                twin_identity t' = twin_identity t)
           (fun n env c s Hi Hb HP => twin_identity_transact twinId t n env c s Hi Hb Hk HP)
           txs n s).
  - apply reachable_invariant; [done | lia].
  - done.
  - eauto.
Qed.

Lemma twin_identity_kept_witness :
  let txs := [ (eoa_env bob 0 dec_20_2025, CreateDigitalTwin "plant" "office" 5 "g");
               (eoa_env alice 0 dec_20_2025, UpdateDigitalTwin "plant" 80) ] in
  exists t', digitalTwins (run plant_twin txs) !! "plant" = Some t' /\
             twin_identity t'
             = twin_identity (DigitalTwin.mk "plant" alice "factory" 100 100 dec_20_2025 true "h").
Proof.
  apply (twin_identity_kept 1 plant_twin "plant").
  - apply (reach_tx 0), reachable_genesis.
  - vm_compute. reflexivity.
  - discriminate.
  - vm_compute. reflexivity.
Defined.

(** X11. Under a key that is not empty the index [companyTwins] is exact: the
    key is on the index of an address exactly when a twin is stored under it
    and this address owns it. *)
Theorem company_twins_index n s a twinId :
  reachable n s -> n < UINT256_MODULUS -> twinId <> "" ->
  (twinId ∈ getCompanyTwins s a <->
     exists t, digitalTwins s !! twinId = Some t /\ DigitalTwin.owner t = a).
Proof.
  intros Hr Hn Hk. destruct (reachable_twins_indexed n s Hr Hn) as (_ & Hidx).
  by apply Hidx.
Qed.

Lemma company_twins_index_witness :
  "plant" ∈ getCompanyTwins plant_twin alice <->
  exists t, digitalTwins plant_twin !! "plant" = Some t /\ DigitalTwin.owner t = alice.
Proof.
  apply (company_twins_index 1 plant_twin alice "plant").
  - apply (reach_tx 0), reachable_genesis.
  - vm_compute. reflexivity.
  - discriminate.
Defined.


Lemma trade_tests_in_order_witness :
  tradeCarbonCredit (eoa_env bob 405 dec_20_2025) 5 40 minted
    = Err (Require "Invalid credit ID") /\
  tradeCarbonCredit (eoa_env bob 405 dec_20_2025) 1 40 retired_lot
    = Err (Require "Credit already retired") /\
  tradeCarbonCredit (eoa_env bob 405 dec_20_2025) 1 101 minted
    = Err (Require "Insufficient credit amount") /\
  tradeCarbonCredit (eoa_env bob 399 dec_20_2025) 1 40 minted
    = Err (Require "Insufficient payment") /\
  tradeCarbonCredit (eoa_env alice 400 dec_20_2025) 1 40 minted
    = Err (Require "Cannot trade own credit") /\
  tradeCarbonCredit (mkEnv bob 400 dec_20_2025 (fun _ => false)) 1 40 minted
    = Err TransferFailed /\
  exists s' l, tradeCarbonCredit (eoa_env bob 405 dec_20_2025) 1 40 minted = Ok (tt, s', l).
Proof.
  assert (Hst : _status minted = _NOT_ENTERED) by (vm_compute; reflexivity).
  assert (Hst' : _status retired_lot = _NOT_ENTERED) by (vm_compute; reflexivity).
  pose proof (trade_tests_in_order (eoa_env bob 405 dec_20_2025) 5 40 minted Hst) as T1.
  pose proof (trade_tests_in_order (eoa_env bob 405 dec_20_2025) 1 40 retired_lot Hst') as T2.
  pose proof (trade_tests_in_order (eoa_env bob 405 dec_20_2025) 1 101 minted Hst) as T3.
  pose proof (trade_tests_in_order (eoa_env bob 399 dec_20_2025) 1 40 minted Hst) as T4.
  pose proof (trade_tests_in_order (eoa_env alice 400 dec_20_2025) 1 40 minted Hst) as T5.
  pose proof (trade_tests_in_order (mkEnv bob 400 dec_20_2025 (fun _ => false)) 1 40 minted Hst)
    as T6.
  pose proof (trade_tests_in_order (eoa_env bob 405 dec_20_2025) 1 40 minted Hst) as T7.
  cbv zeta in T1, T2, T3, T4, T5, T6, T7.
  assert (Hle : forall v, 1 <= _carbonCreditIds v -> 1 <= _carbonCreditIds v) by auto.
  split; [|split; [|split; [|split; [|split; [|split]]]]].
  - apply (proj1 T1). vm_compute. reflexivity.
  - destruct T2 as [_ T2]. destruct T2 as [T2 _]; [by vm_compute|].
    apply T2. vm_compute. reflexivity.
  - destruct T3 as [_ T3]. destruct T3 as [_ T3]; [by vm_compute|].
    destruct T3 as [T3 _]; [vm_compute; reflexivity|]. apply T3. vm_compute. reflexivity.
  - destruct T4 as [_ T4]. destruct T4 as [_ T4]; [by vm_compute|].
    destruct T4 as [_ T4]; [vm_compute; reflexivity|].
    destruct T4 as [_ T4]; [by vm_compute|].
    destruct T4 as [T4 _]; [vm_compute; reflexivity|]. apply T4. vm_compute. reflexivity.
  - destruct T5 as [_ T5]. destruct T5 as [_ T5]; [by vm_compute|].
    destruct T5 as [_ T5]; [vm_compute; reflexivity|].
    destruct T5 as [_ T5]; [by vm_compute|].
    destruct T5 as [_ T5]; [vm_compute; reflexivity|].
    destruct T5 as [T5 _]; [by vm_compute|]. apply T5. vm_compute. reflexivity.
  - destruct T6 as [_ T6]. destruct T6 as [_ T6]; [by vm_compute|].
    destruct T6 as [_ T6]; [vm_compute; reflexivity|].
    destruct T6 as [_ T6]; [by vm_compute|].
    destruct T6 as [_ T6]; [vm_compute; reflexivity|].
    destruct T6 as [_ T6]; [by vm_compute|].
    destruct T6 as [T6 _]; [by vm_compute|]. apply T6. vm_compute. reflexivity.
  - destruct T7 as [_ T7]. destruct T7 as [_ T7]; [by vm_compute|].
    destruct T7 as [_ T7]; [vm_compute; reflexivity|].
    destruct T7 as [_ T7]; [by vm_compute|].
    destruct T7 as [_ T7]; [vm_compute; reflexivity|].
    destruct T7 as [_ T7]; [by vm_compute|].
    destruct T7 as [_ T7]; [by vm_compute|].
    destruct T7 as [_ T7]; [vm_compute; reflexivity|]. apply T7. intros _. vm_compute. reflexivity.
Defined.

(** X13. The buyer gets what the trade was for: after a trade that returns,
    the buyer's index holds a lot owned by the buyer, not retired, of exactly
    the traded amount, with the terms (price, certification, project,
    vintage, type) of the lot traded. *)
Theorem buyer_holds_traded_amount env creditId amount s u s' l :
  tradeCarbonCredit env creditId amount s = Ok (u, s', l) ->
  exists j,
    j ∈ getOwnedCredits s' (msg_sender env) /\
    CarbonCredit.owner (credit s' j) = msg_sender env /\
    CarbonCredit.amount (credit s' j) = amount /\
    CarbonCredit.retired (credit s' j) = false /\
    lot_terms (credit s' j) = lot_terms (credit s creditId).
Proof.
  intros Ht. pose proof Ht as Ht'.
  apply tradeCarbonCredit_Ok in Ht'
    as (_ & _ & Hret & _ & _ & _ & _ & _ & [(Ha & owned & Hs) | (Ha & Hs)]).
  - exists creditId.
    destruct (tradeCarbonCredit_full_index _ _ _ _ _ _ _ Ht Ha) as (Hb & _).
    unfold getOwnedCredits. rewrite Hb. split; [apply elem_of_app; right; by constructor|].
    subst s'. unfold lot_terms. simpl_state. rewrite at_key_insert_eq. simpl_state. done.
  - exists (Counters.increment (_carbonCreditIds s)). cbv zeta in Hs. subst s'.
    unfold getOwnedCredits, lot_terms. simpl_state. rewrite !at_key_insert_eq. simpl_state.
    split; [apply elem_of_app; right; by constructor | done].
Qed.

Lemma buyer_holds_traded_amount_witness :
  exists j,
    j ∈ getOwnedCredits partly_traded bob /\
    CarbonCredit.owner (credit partly_traded j) = bob /\
    CarbonCredit.amount (credit partly_traded j) = 40 /\
    CarbonCredit.retired (credit partly_traded j) = false /\
    lot_terms (credit partly_traded j) = lot_terms (credit minted 1).
Proof.
  apply (buyer_holds_traded_amount (eoa_env bob 405 dec_20_2025) 1 40 minted tt partly_traded
           [Sent alice 400; Sent bob 5; Emitted (CarbonCreditTraded 1 alice bob 40 400)]).
  vm_compute. reflexivity.
Defined.

(** X14. The contract keeps nothing of a payment: the value a successful
    trade sends out, to the seller and back to the buyer, adds up to the value
    attached to the call. *)
Theorem trade_passes_payment_on env creditId amount s u s' l :
  tradeCarbonCredit env creditId amount s = Ok (u, s', l) ->
  sent_total l = msg_value env.
Proof.
  intros Ht. apply tradeCarbonCredit_Ok in Ht as (_ & _ & _ & _ & _ & Hdue & _ & -> & _).
  cbn [sent_total]. destruct (N.ltb_spec (CarbonCredit.pricePerTon (credit s creditId) * amount)
                                (msg_value env)); cbn [sent_total app]; lia.
Qed.

Lemma trade_passes_payment_on_witness :
  sent_total [Sent alice 400; Sent bob 5; Emitted (CarbonCreditTraded 1 alice bob 40 400)]
  = msg_value (eoa_env bob 405 dec_20_2025).
Proof.
  apply (trade_passes_payment_on (eoa_env bob 405 dec_20_2025) 1 40 minted tt partly_traded).
  vm_compute. reflexivity.
Defined.

Lemma lineage_terms_step T n env c s fam :
  invariant n s -> n + 1 < UINT256_MODULUS ->
  (forall i, i ∈ fam -> i <= _carbonCreditIds s /\ lot_terms (credit s i) = T) ->
  let fam' :=
    match split_of env c s with
    | Some (parent, child) =>
        if bool_decide (parent ∈ fam) then fam ++ [child] else fam
    | None => fam
    end in
  forall i, i ∈ fam' ->
    i <= _carbonCreditIds (transact env c s) /\ lot_terms (credit (transact env c s) i) = T.
Proof.
  intros (_ & Hcc & _) Hn Hfam. unfold transact, split_of.
  destruct (exec env c s) as [[s' l]|e] eqn:He.
  2: { destruct c; cbn zeta; auto. }
  pose proof He as He'. exec_inv He'; cbn zeta; try rewrite He; simpl_state; try done.
  all: rewrite ?increment_small by lia.
  all: try rewrite (proj2 (N.eqb_eq _ _)) by done.
  all: try rewrite (proj2 (N.eqb_neq _ _)) by done.
  all: try case_bool_decide.
  all: unfold lot_terms in *; simpl_state; intros i Hi.
  - (* mint *)
    destruct (Hfam i Hi) as [Hle HT]. rewrite at_key_insert_ne by lia. split; [lia | done].
  - (* full trade *)
    destruct (Hfam i Hi) as [Hle HT]. split; [done|]. by case_at_key.
  - (* split of a member *)
    apply elem_of_app in Hi as [Hi|Hi].
    + destruct (Hfam i Hi) as [Hle HT]. rewrite at_key_insert_ne by lia.
      split; [lia|]. by case_at_key.
    + apply list_elem_of_singleton in Hi. subst i. rewrite at_key_insert_eq. simpl_state.
      split; [lia|]. by apply Hfam.
  - (* split of another lot *)
    destruct (Hfam i Hi) as [Hle HT]. rewrite at_key_insert_ne by lia.
    split; [lia|]. by case_at_key.
  - (* retirement *)
    destruct (Hfam i Hi) as [Hle HT]. split; [done|]. by case_at_key.
Qed.

Lemma lineage_terms T txs : forall n s fam,
  invariant n s -> n + N.of_nat (length txs) < UINT256_MODULUS ->
  (forall i, i ∈ fam -> i <= _carbonCreditIds s /\ lot_terms (credit s i) = T) ->
  forall i, i ∈ lineage s txs fam -> lot_terms (credit (run s txs) i) = T.
Proof.
  induction txs as [|[env c] txs IH]; intros n s fam Hinv Hn Hfam; cbn [run lineage length] in *.
  - intros i Hi. by apply Hfam.
  - apply (IH (n + 1)).
    + apply invariant_transact; [done | lia].
    + lia.
    + apply (lineage_terms_step T n); [done | lia | done].
Qed.

(** X15. A split hands the terms down: every lot of the family of a minted
    lot, after any sequence of transactions, has the price per ton, the
    certification, the project, the vintage and the type given at the mint. *)
Theorem split_lots_keep_terms
    n s0 env amount pricePerTon cert details vintage creditType s1 l txs i :
  reachable n s0 ->
  n + 1 + N.of_nat (length txs) < UINT256_MODULUS ->
  exec env (MintCarbonCredit amount pricePerTon cert details vintage creditType) s0
    = Ok (s1, l) ->
  i ∈ lineage s1 txs [_carbonCreditIds s1] ->
  lot_terms (credit (run s1 txs) i) = (pricePerTon, cert, details, vintage, creditType).
Proof.
  intros Hr Hn He.
  assert (Hinv : invariant n s0) by (apply reachable_invariant; [done | lia]).
  assert (Hinv1 : invariant (n + 1) s1) by (eapply invariant_exec; [done | lia | done]).
  apply (lineage_terms _ txs (n + 1)); [done | lia |].
  intros j Hj. apply list_elem_of_singleton in Hj. subst j. split; [done|].
  apply outcome_nonpayable_Ok in He as [r He].
  apply mintCarbonCredit_Ok in He as (_ & _ & -> & -> & _).
  unfold lot_terms. simpl_state. rewrite at_key_insert_eq. by simpl_state.
Qed.

Lemma split_lots_keep_terms_witness :
  lot_terms (credit (run minted market) 3) = (10, "cert", "project", 2024, CARBON_CAPTURE).
Proof.
  apply (split_lots_keep_terms 0 genesis (eoa_env alice 0 dec_20_2025)
           100 10 "cert" "project" 2024 CARBON_CAPTURE minted
           [Emitted (CarbonCreditMinted 1 alice 100 CARBON_CAPTURE)] market 3).
  - apply reachable_genesis.
  - vm_compute. reflexivity.
  - vm_compute. reflexivity.
  - vm_compute. repeat constructor.
Defined.

Lemma retired_frozen_transact i c0 n env c s :
  invariant n s -> n + 1 < UINT256_MODULUS ->
  CarbonCredit.retired c0 = true ->
  credit s i = c0 -> credit (transact env c s) i = c0.
Proof.
  intros (_ & Hcc & _ & Hret & _) Hn Hr Hc. unfold transact.
  destruct (exec env c s) as [[s' l]|e] eqn:He; [|done].
  assert (Hid : i <= _carbonCreditIds s) by (apply Hret; by rewrite Hc).
  rewrite <- Hc in Hr.
  exec_inv He; simpl_state; try done.
  all: rewrite ?increment_small by lia.
  - by rewrite at_key_insert_ne by lia.
  - case_at_key; [congruence | done].
  - rewrite at_key_insert_ne by lia. case_at_key; [congruence | done].
  - case_at_key; [congruence | done].
Qed.

(** X16. A retired lot is frozen: after any sequence of transactions its
    whole record (owner, amount, price, and the rest) is what it was. *)
Theorem retired_lot_frozen n s creditId txs :
  reachable n s ->
  n + N.of_nat (length txs) < UINT256_MODULUS ->
  CarbonCredit.retired (credit s creditId) = true ->
  credit (run s txs) creditId = credit s creditId.
Proof.
  intros Hr Hn Hret.
  apply (run_stable (fun s' => credit s' creditId = credit s creditId)
           (fun n env c s' Hi Hb HP =>
              retired_frozen_transact creditId (credit s creditId) n env c s' Hi Hb Hret HP)
           txs n s); [apply reachable_invariant; [done | lia] | done | done].
Qed.

Lemma retired_lot_frozen_witness :
  credit (run retired_lot market) 1 = credit retired_lot 1.
Proof.
  apply (retired_lot_frozen 2 retired_lot 1 market).
  - apply reachable_retired_lot.
  - vm_compute. reflexivity.
  - vm_compute. reflexivity.
Defined.

Lemma verified_frozen_transact i r0 n env c s :
  invariant n s -> n + 1 < UINT256_MODULUS ->
  i <= _emissionReportIds s ->
  EmissionReport.verified r0 = true ->
  report s i = r0 ->
  i <= _emissionReportIds (transact env c s) /\ report (transact env c s) i = r0.
Proof.
  intros (_ & _ & Her & _) Hn Hid Hv Hr. unfold transact.
  destruct (exec env c s) as [[s' l]|e] eqn:He; [|done].
  rewrite <- Hr in Hv.
  exec_inv He; simpl_state; try done.
  - rewrite increment_small by lia. rewrite at_key_insert_ne by lia. split; [lia | done].
  - split; [done|]. case_at_key; [congruence | done].
Qed.

(** X17. A verified report is frozen: after any sequence of transactions
    its whole record is what it was. *)
Theorem verified_report_frozen n s reportId txs :
  reachable n s ->
  n + N.of_nat (length txs) < UINT256_MODULUS ->
  EmissionReport.verified (report s reportId) = true ->
  report (run s txs) reportId = report s reportId.
Proof.
  intros Hr Hn Hv.
  assert (Hn' : n < UINT256_MODULUS) by lia.
  destruct (reachable_reports_indexed n s Hr Hn') as (Hid & _).
  assert (Hle : reportId <= _emissionReportIds s).
  { unfold report, at_key in Hv. destruct (emissionReports s !! reportId) as [r|] eqn:Hr'.
    - by apply Hid in Hr' as [_ ?].
    - done. }
  apply (run_stable
           (fun s' => reportId <= _emissionReportIds s' /\ report s' reportId = report s reportId)
           (fun n env c s' Hi Hb HP =>
              verified_frozen_transact reportId (report s reportId) n env c s' Hi Hb
                (proj1 HP) Hv (proj2 HP))
           txs n s); [apply reachable_invariant; [done | lia] | done | done].
Qed.

Lemma verified_report_frozen_witness :
  report (run verified_once later) 1 = report verified_once 1.
Proof.
  apply (verified_report_frozen 2 verified_once 1 later).
  - apply (reach_tx 1), reachable_reported.
  - vm_compute. reflexivity.
  - vm_compute. reflexivity.
Defined.

Lemma amount_transact i n env c s :
  invariant n s -> n + 1 < UINT256_MODULUS ->
  i <= _carbonCreditIds s ->
  i <= _carbonCreditIds (transact env c s) /\
  CarbonCredit.amount (credit (transact env c s) i) <= CarbonCredit.amount (credit s i).
Proof.
  intros (_ & Hcc & _) Hn Hid. unfold transact.
  destruct (exec env c s) as [[s' l]|e] eqn:He; [|split; [done | lia]].
  exec_inv He; simpl_state; try (split; [done | lia]).
  all: rewrite ?increment_small by lia.
  - rewrite at_key_insert_ne by lia. split; lia.
  - split; [done|]. case_at_key; simpl_state; lia.
  - rewrite at_key_insert_ne by lia. split; [lia|]. case_at_key; simpl_state; lia.
  - split; [done|]. case_at_key; simpl_state; lia.
Qed.

(** X18. The amount of a lot never grows: whatever transactions follow, a
    lot holds at most what it held.  (It shrinks only when part of it is split
    off.) *)
Theorem amount_never_grows n s creditId txs :
  reachable n s ->
  n + N.of_nat (length txs) < UINT256_MODULUS ->
  creditId <= getTotalCredits s ->
  CarbonCredit.amount (credit (run s txs) creditId) <= CarbonCredit.amount (credit s creditId).
Proof.
  intros Hr Hn. unfold getTotalCredits, Counters.current.
  assert (Hinv : invariant n s) by (apply reachable_invariant; [done | lia]).
  clear Hr. revert n s Hinv Hn.
  induction txs as [|[env c] txs IH]; intros n s Hinv Hn Hid; cbn [run length] in *; [lia|].
  destruct (amount_transact creditId n env c s Hinv) as (Hid' & Hle); [lia | done|].
  etrans; [|exact Hle]. apply (IH (n + 1)); [apply invariant_transact; [done | lia] | lia | done].
Qed.

Lemma amount_never_grows_witness :
  CarbonCredit.amount (credit (run minted market) 1) <= CarbonCredit.amount (credit minted 1).
Proof.
  apply (amount_never_grows 1 minted 1 market).
  - apply reachable_minted.
  - vm_compute. reflexivity.
  - vm_compute. discriminate.
Defined.

(** X19. The verifier set is in the hands of the contract owner: a
    transaction changes whether an address is a verifier only if its sender is
    the owner and the call is [addVerifier] or [removeVerifier] of this
    address; a committed [addVerifier] makes the address a verifier, a
    committed [removeVerifier] makes it none. *)
Theorem verifier_set_by_owner env c s v :
  (isVerifier (transact env c s) v <> isVerifier s v ->
     _owner s = msg_sender env /\ (c = AddVerifier v \/ c = RemoveVerifier v)) /\
  (forall s' l, exec env (AddVerifier v) s = Ok (s', l) ->
     _owner s = msg_sender env /\ isVerifier s' v = true) /\
  (forall s' l, exec env (RemoveVerifier v) s = Ok (s', l) ->
     _owner s = msg_sender env /\ isVerifier s' v = false).
Proof.
  split; [|split].
  - unfold transact. destruct (exec env c s) as [[s' l]|e] eqn:He; [|done].
    exec_inv He; simpl_state; try done.
    + destruct (decide (verifier = v)) as [->|Hne]; [auto|].
      by rewrite at_key_insert_ne.
    + destruct (decide (verifier = v)) as [->|Hne]; [auto|].
      by rewrite at_key_insert_ne.
  - intros s' l He. apply outcome_nonpayable_Ok in He as [u He].
    apply addVerifier_Ok in He as (Ho & -> & _). split; [done|].
    unfold isVerifier. simpl_state. by rewrite at_key_insert_eq.
  - intros s' l He. apply outcome_nonpayable_Ok in He as [u He].
    apply removeVerifier_Ok in He as (Ho & -> & _). split; [done|].
    unfold isVerifier. simpl_state. by rewrite at_key_insert_eq.
Qed.

Lemma verifier_set_by_owner_witness :
  let env := eoa_env deployer 0 dec_20_2025 in
  _owner genesis = msg_sender env /\
  isVerifier (transact env (AddVerifier carol) genesis) carol = true.
Proof.
  apply (proj1 (proj2 (verifier_set_by_owner (eoa_env deployer 0 dec_20_2025)
                         (AddVerifier carol) genesis carol))
           (transact (eoa_env deployer 0 dec_20_2025) (AddVerifier carol) genesis) []).
  vm_compute. reflexivity.
Defined.

(** X20. [retireCarbonCredit]: an id above the counter is unknown, a retired
    lot is refused, a caller who is not the owner is refused, in this order;
    otherwise the call returns, sets the retired flag of the lot and changes
    nothing else. *)
Theorem retire_cases env creditId s :
  let c := credit s creditId in
  let call := retireCarbonCredit env creditId s in
  (_carbonCreditIds s < creditId -> call = Err (Require "Invalid credit ID")) /\
  (creditId <= _carbonCreditIds s ->
     (CarbonCredit.retired c = true -> call = Err (Require "Credit already retired")) /\
     (CarbonCredit.retired c = false ->
        (CarbonCredit.owner c <> msg_sender env ->
           call = Err (Require "Not credit owner") /\ fails_with call AuthorizationError) /\
        (CarbonCredit.owner c = msg_sender env ->
           call = Ok (tt,
                      set_carbonCredits
                        (<[creditId := CarbonCredit.set_retired true c]> (carbonCredits s)) s,
                      [Emitted (CarbonCreditRetired creditId (msg_sender env)
                                  (CarbonCredit.amount c))])))).
Proof.
  cbv zeta.
  split; [intros Hid; apply retireCarbonCredit_validCredit_Err; by apply validCredit_unknown|].
  intros Hid.
  split; [intros Hret; apply retireCarbonCredit_validCredit_Err; by apply validCredit_retired|].
  intros Hret. apply N.leb_le in Hid. split.
  - intros Hown%N.eqb_neq.
    assert (He : retireCarbonCredit env creditId s = Err (Require "Not credit owner")).
    { unfold retireCarbonCredit, validCredit, update_credit. step_M. by eval_tests. }
    by rewrite He.
  - intros Hown%N.eqb_eq.
    unfold retireCarbonCredit, validCredit, update_credit. step_M. eval_tests.
    rewrite at_key_insert_eq. by simpl_state.
Qed.

Lemma retire_cases_witness :
  retireCarbonCredit (eoa_env bob 0 dec_20_2025) 1 minted = Err (Require "Not credit owner") /\
  fails_with (retireCarbonCredit (eoa_env bob 0 dec_20_2025) 1 minted) AuthorizationError.
Proof.
  destruct (retire_cases (eoa_env bob 0 dec_20_2025) 1 minted) as [_ R].
  destruct R as [_ R]; [by vm_compute|].
  destruct R as [R _]; [vm_compute; reflexivity|].
  apply R. by vm_compute.
Defined.

(** X21. A full trade moves the lot from one index to the other: the id
    goes on the index of the buyer and off that of the seller, whose other
    lots all stay; the lot keeps its amount and no new id is handed out. *)
Theorem full_trade_moves_lot n env creditId amount s u s' l :
  reachable n s -> n < UINT256_MODULUS ->
  tradeCarbonCredit env creditId amount s = Ok (u, s', l) ->
  amount = CarbonCredit.amount (credit s creditId) ->
  let seller := CarbonCredit.owner (credit s creditId) in
  CarbonCredit.owner (credit s' creditId) = msg_sender env /\
  CarbonCredit.amount (credit s' creditId) = amount /\
  getTotalCredits s' = getTotalCredits s /\
  creditId ∈ getOwnedCredits s' (msg_sender env) /\
  (creditId ∉ getOwnedCredits s' seller) /\
  (forall j, j <> creditId ->
     (j ∈ getOwnedCredits s' seller <-> j ∈ getOwnedCredits s seller)).
Proof.
  intros Hr Hn Ht Ha seller.
  destruct (reachable_credits_indexed n s Hr Hn) as (_ & _ & Hnd & _).
  destruct (tradeCarbonCredit_full_index _ _ _ _ _ _ _ Ht Ha) as (Hb & Hp & _).
  destruct (remove_from_index creditId (creditsOf s seller) (Hnd seller))
    as (_ & Hgone & Hkeep).
  fold seller in Hp. rewrite <- Hp in Hgone, Hkeep.
  apply tradeCarbonCredit_Ok in Ht
    as (_ & _ & _ & _ & _ & _ & _ & _ & [(_ & owned & Hs) | (Hne & _)]); [|done].
  unfold getOwnedCredits, getTotalCredits. rewrite Hb.
  split; [|split; [|split; [|split; [|split]]]]; try done.
  - subst s'. simpl_state. rewrite at_key_insert_eq. by simpl_state.
  - subst s'. simpl_state. rewrite at_key_insert_eq. by simpl_state.
  - by subst s'.
  - apply elem_of_app. right. by constructor.
Qed.

Lemma full_trade_moves_lot_witness :
  let s := run minted [(eoa_env bob 405 dec_20_2025, TradeCarbonCredit 1 40)] in
  let env := eoa_env carol 600 dec_20_2025 in
  let s' := transact env (TradeCarbonCredit 1 60) s in
  CarbonCredit.owner (credit s' 1) = carol /\
  CarbonCredit.amount (credit s' 1) = 60 /\
  getTotalCredits s' = getTotalCredits s /\
  1 ∈ getOwnedCredits s' carol /\
  (1 ∉ getOwnedCredits s' alice) /\
  (forall j, j <> 1 -> (j ∈ getOwnedCredits s' alice <-> j ∈ getOwnedCredits s alice)).
Proof.
  apply (full_trade_moves_lot 2 (eoa_env carol 600 dec_20_2025) 1 60
           (run minted [(eoa_env bob 405 dec_20_2025, TradeCarbonCredit 1 40)]) tt
           (transact (eoa_env carol 600 dec_20_2025) (TradeCarbonCredit 1 60)
              (run minted [(eoa_env bob 405 dec_20_2025, TradeCarbonCredit 1 40)]))
           [Sent alice 600; Emitted (CarbonCreditTraded 1 alice carol 60 600)]).
  - apply (reach_tx 1), reachable_minted.
  - vm_compute. reflexivity.
  - vm_compute. reflexivity.
  - vm_compute. reflexivity.
Defined.

(** X22. [_removeFromOwnedCredits] always returns and takes exactly one
    occurrence of the id off the index of the given address (the order of the
    others may change); when the id is not on that index the storage is left
    as it was.  The indices of other addresses and the lots are not touched. *)
Theorem removeFromOwnedCredits_removes_one owner creditId s :
  exists s',
    _removeFromOwnedCredits owner creditId s = Ok (tt, s', []) /\
    (creditId ∈ creditsOf s owner -> creditId :: creditsOf s' owner ≡ₚ creditsOf s owner) /\
    (creditId ∉ creditsOf s owner -> s' = s) /\
    (forall b, b <> owner -> creditsOf s' b = creditsOf s b) /\
    carbonCredits s' = carbonCredits s /\
    _carbonCreditIds s' = _carbonCreditIds s.
Proof.
  unfold _removeFromOwnedCredits, modify.
  destruct (first_index creditId (creditsOf s owner)) as [i|] eqn:Hi.
  - eexists. split; [reflexivity|]. apply first_index_Some in Hi.
    unfold creditsOf in *. simpl_state. rewrite at_key_insert_eq.
    split; [intros _; by apply swap_pop_perm|].
    split; [intros Hnot; exfalso; apply Hnot; by eapply list_elem_of_lookup_2|].
    split; [|done]. intros b Hb. by rewrite at_key_insert_ne.
  - exists s. split; [reflexivity|]. apply first_index_None in Hi.
    split; [done|]. done.
Qed.

Lemma removeFromOwnedCredits_removes_one_witness :
  exists s',
    _removeFromOwnedCredits alice 1 minted = Ok (tt, s', []) /\
    (1 ∈ creditsOf minted alice -> 1 :: creditsOf s' alice ≡ₚ creditsOf minted alice) /\
    (1 ∉ creditsOf minted alice -> s' = minted) /\
    (forall b, b <> alice -> creditsOf s' b = creditsOf minted b) /\
    carbonCredits s' = carbonCredits minted /\
    _carbonCreditIds s' = _carbonCreditIds minted.
Proof. apply (removeFromOwnedCredits_removes_one alice 1 minted). Defined.

(** X23. A mint adds one lot and touches no other: the new id is the next
    one, no lot was stored under it, the new lot is the caller's with the
    amount and terms given, and it goes on the end of the caller's index. *)
Theorem mint_adds_fresh_lot n env amount pricePerTon cert details vintage creditType s s' l :
  reachable n s -> n + 1 < UINT256_MODULUS ->
  exec env (MintCarbonCredit amount pricePerTon cert details vintage creditType) s
    = Ok (s', l) ->
  let k := getTotalCredits s + 1 in
  getTotalCredits s' = k /\
  carbonCredits s !! k = None /\
  carbonCredits s'
    = <[k := CarbonCredit.mk k (msg_sender env) amount pricePerTon cert details false
               vintage creditType]> (carbonCredits s) /\
  getOwnedCredits s' (msg_sender env) = getOwnedCredits s (msg_sender env) ++ [k] /\
  l = [Emitted (CarbonCreditMinted k (msg_sender env) amount creditType)].
Proof.
  intros Hr Hn He k. unfold getTotalCredits, getOwnedCredits, Counters.current in *.
  assert (Hn' : n < UINT256_MODULUS) by lia.
  destruct (reachable_invariant n s Hr Hn') as (_ & Hcc & _).
  destruct (reachable_credits_indexed n s Hr Hn') as (Hstored & _).
  assert (Habove : forall i, _carbonCreditIds s < i -> carbonCredits s !! i = None).
  { intros i Hi. destruct (carbonCredits s !! i) as [c|] eqn:Hc; [|done].
    apply Hstored in Hc as [_ Hc]. lia. }
  apply outcome_nonpayable_Ok in He as [r He].
  apply mintCarbonCredit_Ok in He as (_ & _ & -> & -> & ->).
  rewrite increment_small by lia. simpl_state. rewrite at_key_insert_eq.
  split; [done|]. split; [apply Habove; lia | done].
Qed.

Lemma mint_adds_fresh_lot_witness :
  let k := getTotalCredits genesis + 1 in
  getTotalCredits minted = k /\
  carbonCredits genesis !! k = None /\
  carbonCredits minted
    = <[k := CarbonCredit.mk k alice 100 10 "cert" "project" false 2024 CARBON_CAPTURE]>
        (carbonCredits genesis) /\
  getOwnedCredits minted alice = getOwnedCredits genesis alice ++ [k] /\
  [Emitted (CarbonCreditMinted 1 alice 100 CARBON_CAPTURE)]
    = [Emitted (CarbonCreditMinted k alice 100 CARBON_CAPTURE)].
Proof.
  apply (mint_adds_fresh_lot 0 (eoa_env alice 0 dec_20_2025) 100 10 "cert" "project" 2024
           CARBON_CAPTURE genesis minted).
  - apply reachable_genesis.
  - vm_compute. reflexivity.
  - vm_compute. reflexivity.
Defined.

(** X24. [reportEmissions] accepts every input, zero amounts included, and
    adds one report without touching another: the new id is the next one, no
    report was stored under it, the report is stored unverified with the data
    given, and its id goes on the end of the caller's index. *)
Theorem report_adds_fresh_report n env facilityId emissionAmount productionVolume
    energySources ipfsHash s :
  reachable n s -> n + 1 < UINT256_MODULUS ->
  let k := getTotalReports s + 1 in
  emissionReports s !! k = None /\
  exists s',
    reportEmissions env facilityId emissionAmount productionVolume energySources ipfsHash s
      = Ok (k, s', [Emitted (EmissionReported k (msg_sender env) facilityId emissionAmount
                               (block_timestamp env))]) /\
    getTotalReports s' = k /\
    emissionReports s'
      = <[k := EmissionReport.mk k (msg_sender env) facilityId emissionAmount
                 productionVolume energySources (block_timestamp env) false 0 ipfsHash 0]>
          (emissionReports s) /\
    getCompanyReports s' (msg_sender env) = getCompanyReports s (msg_sender env) ++ [k].
Proof.
  intros Hr Hn k. unfold getTotalReports, getCompanyReports, Counters.current in *.
  assert (Hn' : n < UINT256_MODULUS) by lia.
  destruct (reachable_invariant n s Hr Hn') as (_ & _ & Her & _).
  destruct (reachable_reports_indexed n s Hr Hn') as (Hstored & _).
  assert (Habove : forall i, _emissionReportIds s < i -> emissionReports s !! i = None).
  { intros i Hi. destruct (emissionReports s !! i) as [r|] eqn:Hr'; [|done].
    apply Hstored in Hr' as [_ Hr']. lia. }
  split; [apply Habove; lia|].
  eexists. rewrite reportEmissions_run. rewrite increment_small by lia.
  split; [reflexivity|]. unfold reportsOf. simpl_state. by rewrite at_key_insert_eq.
Qed.

Lemma report_adds_fresh_report_witness :
  let k := getTotalReports genesis + 1 in
  emissionReports genesis !! k = None /\
  exists s',
    reportEmissions (eoa_env alice 0 dec_20_2025) "plant" 0 0 [] "" genesis
      = Ok (k, s', [Emitted (EmissionReported k alice "plant" 0 dec_20_2025)]) /\
    getTotalReports s' = k /\
    emissionReports s'
      = <[k := EmissionReport.mk k alice "plant" 0 0 [] dec_20_2025 false 0 "" 0]>
          (emissionReports genesis) /\
    getCompanyReports s' alice = getCompanyReports genesis alice ++ [k].
Proof.
  apply (report_adds_fresh_report 0 (eoa_env alice 0 dec_20_2025) "plant" 0 0 [] "" genesis).
  - apply reachable_genesis.
  - vm_compute. reflexivity.
Defined.

Lemma createDigitalTwin_free env twinId facilityType baseline dataHash s :
  digitalTwins s !! twinId = None ->
  createDigitalTwin env twinId facilityType baseline dataHash s
    = Ok (tt,
          set_companyTwins
            (<[msg_sender env := twinsOf s (msg_sender env) ++ [twinId]]> (companyTwins s))
            (set_digitalTwins
               (<[twinId := DigitalTwin.mk twinId (msg_sender env) facilityType baseline
                              baseline (block_timestamp env) true dataHash]>
                  (digitalTwins s)) s),
          [Emitted (DigitalTwinCreated twinId (msg_sender env) facilityType)]).
Proof.
  intros Hfree. unfold createDigitalTwin. step_M. unfold twin.
  rewrite (at_key_None _ _ _ Hfree). reflexivity.
Qed.

(** X25. Under a key that is not empty, [createDigitalTwin] returns exactly
    when the key is free; the twin it stores is the caller's, active, with the
    current emissions set to the baseline. *)
Theorem create_twin_iff_free n env twinId facilityType baseline dataHash s :
  reachable n s -> n < UINT256_MODULUS -> twinId <> "" ->
  let call := createDigitalTwin env twinId facilityType baseline dataHash s in
  ((exists s' l, call = Ok (tt, s', l)) <-> digitalTwins s !! twinId = None) /\
  (forall s' l, call = Ok (tt, s', l) ->
     digitalTwins s' !! twinId
       = Some (DigitalTwin.mk twinId (msg_sender env) facilityType baseline baseline
                 (block_timestamp env) true dataHash)).
Proof.
  intros Hr Hn Hk call. subst call. split.
  - split.
    + intros (s' & l & Hc). destruct (digitalTwins s !! twinId) as [t|] eqn:Ht; [|done].
      destruct (createDigitalTwin_duplicate n env twinId facilityType baseline dataHash s t
                  Hr Hn Ht Hk) as (He & _).
      congruence.
    + intros Hfree. rewrite (createDigitalTwin_free _ _ _ _ _ _ Hfree). eauto.
  - intros s' l Hc. apply createDigitalTwin_Ok in Hc as (_ & -> & _).
    simpl_state. by rewrite lookup_insert_eq.
Qed.

Lemma create_twin_iff_free_witness :
  let call := createDigitalTwin (eoa_env bob 0 dec_20_2025) "plant" "office" 5 "g" plant_twin in
  ((exists s' l, call = Ok (tt, s', l)) <-> digitalTwins plant_twin !! "plant" = None) /\
  (forall s' l, call = Ok (tt, s', l) ->
     digitalTwins s' !! "plant"
       = Some (DigitalTwin.mk "plant" bob "office" 5 5 dec_20_2025 true "g")).
Proof.
  apply (create_twin_iff_free 1 (eoa_env bob 0 dec_20_2025) "plant" "office" 5 "g" plant_twin).
  - apply (reach_tx 0), reachable_genesis.
  - vm_compute. reflexivity.
  - discriminate.
Defined.

(** X26. Without trades of amount zero every lot has a positive amount:
    after a deployment and any sequence of transactions none of which is a
    trade of amount zero, every lot handed out holds more than zero. *)
Theorem positive_amounts_without_zero_trades d txs i :
  Forall not_zero_trade txs ->
  N.of_nat (length txs) < UINT256_MODULUS ->
  lot_exists (run (constructor d) txs) i ->
  0 < CarbonCredit.amount (credit (run (constructor d) txs) i).
Proof.
  intros Hnz Hn.
  assert (Hgen : forall txs n s,
             Forall not_zero_trade txs -> invariant n s ->
             n + N.of_nat (length txs) < UINT256_MODULUS ->
             (forall i, lot_exists s i -> 0 < CarbonCredit.amount (credit s i)) ->
             forall i, lot_exists (run s txs) i -> 0 < CarbonCredit.amount (credit (run s txs) i)).
  { clear. induction txs as [|[env c] txs IH]; intros n s Hnz Hinv Hn Hpos; [done|].
    cbn [run length] in *. apply Forall_cons in Hnz as [Hc Hnz].
    apply (IH (n + 1)); [done | apply invariant_transact; [done | lia] | lia |].
    apply (positive_amount_transact n); [done | lia | | done].
    intros a j -> ->. by apply (Hc j). }
  apply (Hgen txs 0 (constructor d)); [done | apply invariant_constructor | lia |].
  intros j [Hj1 Hj2]. unfold constructor in Hj2. simpl_state. lia.
Qed.

Lemma positive_amounts_without_zero_trades_witness :
  0 < CarbonCredit.amount
        (credit (run (constructor deployer) ((eoa_env alice 0 dec_20_2025, mint_100) :: market)) 2).
Proof.
  apply (positive_amounts_without_zero_trades deployer
           ((eoa_env alice 0 dec_20_2025, mint_100) :: market) 2).
  - repeat (apply Forall_cons; split; [intros j; discriminate|]). apply Forall_nil_2.
  - vm_compute. reflexivity.
  - split; vm_compute; discriminate.
Defined.
